(** * gpyconf: the event registers of [gpyconf/events.py]

    A shallow embedding of [EventRegister], [GEventRegister] and [GSignals]
    and of the configuration round trip exercised by
    [examples/unittests/inheritance.py].

    Python objects that are mutated in place are kept in an explicit store:
    the register itself ([self]), the [lazy] entry that [register_event]
    writes into the [__dict__] of every callback it is handed, and the log of
    the calls made so far.  Methods are computations of a small state and
    exception monad over that store; an exception leaves in the store
    whatever was written before it was raised, as in Python. *)

From Stdlib Require Import Ascii.
From stdpp Require Import gmap strings list.

(** ** Values, exceptions and calls *)

(** The Python values that are passed around as arguments.  [VFunc f] is the
    function object with identity [f], [VObj o] any other instance, and
    [VFloat m e] the float [m * 2^e]. *)
Inductive value :=
  | VNone
  | VBool (b : bool)
  | VInt (n : Z)
  | VStr (s : string)
  | VFloat (mantissa exponent : Z)
  | VObj (o : nat)
  | VFunc (f : nat).

(** The exceptions that the module can raise.  [InvalidEvent] carries its
    [event] attribute. *)
Inductive exn :=
  | InvalidEvent (event : string)
  | AttributeError (name : string)
  | KeyError (key : string)
  | TypeError (msg : string).

(** One call of a callback, with its positional and keyword arguments.  The
    bodies of callbacks are not part of the module: a call is recorded in the
    log and returns. *)
Record call := Call {
  callee : nat;
  call_args : list value;
  call_kwargs : list (string * value)
}.

(** What sits in [lazy_callbacks]: a function, or a [functools.partial]. *)
Inductive callable :=
  | CFunc (f : nat)
  | CPartial (f : nat) (bound : list value).

(** ** The store *)

(** The attributes of an [EventRegister] instance.  [__events__] is read only
    when [strict] is set. *)
Record EventRegister := {
  strict : bool;
  __events__ : list string;
  events : gmap string (list nat);
  all_events_listener : list nat
}.

Record world := {
  self : EventRegister;
  (** [func.__dict__['lazy']], for every function object that has one *)
  lazy_attr : gmap nat bool;
  (** the calls made so far, oldest first *)
  log : list call
}.

(** ** The monad *)

Inductive result (A : Type) :=
  | Returned (a : A)
  | Raised (e : exn).
Arguments Returned {A} a.
Arguments Raised {A} e.

Definition M (A : Type) : Type := world → result A * world.

#[global] Instance M_ret : MRet M := λ A a w, (Returned a, w).
#[global] Instance M_bind : MBind M := λ A B k c w,
  match c w with
  | (Returned a, w') => k a w'
  | (Raised e, w') => (Raised e, w')
  end.

Definition raise {A} (e : exn) : M A := λ w, (Raised e, w).
Definition get_self : M EventRegister := λ w, (Returned (self w), w).
Definition set_self (reg : EventRegister) : M unit := λ w,
  (Returned (), {| self := reg; lazy_attr := lazy_attr w; log := log w |}).

(** [for x in l: acc = body(acc, x)], with the local variable [acc] threaded
    through the iterations. *)
Fixpoint foldM {A B} (body : B → A → M B) (acc : B) (l : list A) : M B :=
  match l with
  | [] => mret acc
  | x :: l' => acc' ← body acc x; foldM body acc' l'
  end.

Fixpoint for_ {A} (l : list A) (body : A → M unit) : M unit :=
  match l with
  | [] => mret ()
  | x :: l' => body x;; for_ l' body
  end.

(** ** Primitive operations on the store *)

(** A call of [func] with [args] and [kwargs] *)
Definition invoke (func : nat) (args : list value)
    (kwargs : list (string * value)) : M unit := λ w,
  (Returned (), {| self := self w; lazy_attr := lazy_attr w;
                   log := log w ++ [Call func args kwargs] |}).

(** A call of an entry of [lazy_callbacks]: a partial puts its bound
    arguments first. *)
Definition call_callable (c : callable) (args : list value)
    (kwargs : list (string * value)) : M unit :=
  match c with
  | CFunc f => invoke f args kwargs
  | CPartial f bound => invoke f (bound ++ args) kwargs
  end.

(** [functools.partial] of [fn] and the arguments [bound]: the first
    argument must be callable. *)
Definition partial (fn : value) (bound : list value) : M callable :=
  match fn with
  | VFunc f => mret (CPartial f bound)
  | _ => raise (TypeError "the first argument must be callable")
  end.

(** [func.__dict__['lazy'] = lazy].  The callbacks of the model are function
    objects, each with a [__dict__] of its own; bound methods, which show the
    [__dict__] of their function and so share one [lazy] entry, are not
    modelled. *)
Definition dict_setitem_lazy (func : nat) (lazy : bool) : M unit := λ w,
  (Returned (), {| self := self w; lazy_attr := <[func := lazy]> (lazy_attr w);
                   log := log w |}).

(** [func.__dict__['lazy']] *)
Definition dict_getitem_lazy (func : nat) : M bool := λ w,
  match lazy_attr w !! func with
  | Some b => (Returned b, w)
  | None => (Raised (KeyError "lazy"), w)
  end.

(** [func.lazy] *)
Definition getattr_lazy (func : nat) : M bool := λ w,
  match lazy_attr w !! func with
  | Some b => (Returned b, w)
  | None => (Raised (AttributeError "lazy"), w)
  end.

Definition set_events (m : gmap string (list nat)) : M unit :=
  this ← get_self;
  set_self {| strict := strict this; __events__ := __events__ this; events := m;
              all_events_listener := all_events_listener this |}.

(** [event in self.events] *)
Definition events_contains (event : string) : M bool :=
  this ← get_self; mret (bool_decide (is_Some (events this !! event))).

(** [self.events[event]] on a [defaultdict(list)]: a missing key is first
    bound to a new empty list. *)
Definition events_getitem (event : string) : M (list nat) :=
  this ← get_self;
  match events this !! event with
  | Some l => mret l
  | None => set_events (<[event := []]> (events this));; mret []
  end.

(** [self.events[event].append(callback)] *)
Definition events_append (event : string) (callback : nat) : M unit :=
  l ← events_getitem event;
  this ← get_self;
  set_events (<[event := l ++ [callback]]> (events this)).

(** [self.all_events_listener.append(callback)] *)
Definition all_events_listener_append (callback : nat) : M unit :=
  this ← get_self;
  set_self {| strict := strict this; __events__ := __events__ this;
              events := events this;
              all_events_listener := all_events_listener this ++ [callback] |}.

(** [self.strict and event not in self.__events__] *)
Definition not_allowed (reg : EventRegister) (event : string) : bool :=
  strict reg && negb (bool_decide (event ∈ __events__ reg)).

(** ** [EventRegister] *)

(** The closure that [__getattr__] returns: [register_event] of the inner
    [def], with [event] captured. *)
Record registrar := Registrar { captured_event : string }.

(** The two ways the closure is used.  [@events.name] hands it the function
    ([args[0]] is a [FunctionType]): it registers with the default
    [lazy=False].  [@events.name(lazy=b)] makes it return [wrapper], which
    registers the decorated function with the arguments given. *)
Inductive decoration :=
  | Bare
  | WithLazy (lazy : bool).

Definition decoration_lazy (d : decoration) : bool :=
  match d with
  | Bare => false
  | WithLazy lazy => lazy
  end.

Module EventRegister.

(** [declared] is the class attribute [__events__], when the class has
    one. *)
Definition __init__ (declared : option (list string)) : EventRegister :=
  match declared with
  | Some names =>
      {| strict := true; __events__ := names; events := ∅;
         all_events_listener := [] |}
  | None =>
      {| strict := false; __events__ := []; events := ∅;
         all_events_listener := [] |}
  end.

Definition register_event (event : string) (callback : nat) (lazy : bool)
    : M unit :=
  dict_setitem_lazy callback lazy;;
  if bool_decide (event = "all") then all_events_listener_append callback
  else
    this ← get_self;
    if not_allowed this event then raise (InvalidEvent event)
    else events_append event callback.

(** Shortcut to [register_event] *)
Definition r := register_event.

Definition emit (event : string) (args : list value)
    (kwargs : list (string * value)) : M unit :=
  this ← get_self;
  if not_allowed this event then raise (InvalidEvent event)
  else
    let lazy_callbacks := [] in
    known ← events_contains event;
    lazy_callbacks ←
      (if known : bool then
         l ← events_getitem event;
         foldM (λ lazy_callbacks func,
                  lazy ← dict_getitem_lazy func;
                  if lazy : bool then mret (lazy_callbacks ++ [CFunc func])
                  else invoke func args kwargs;; mret lazy_callbacks)
               lazy_callbacks l
       else mret lazy_callbacks);
    this ← get_self;
    lazy_callbacks ←
      foldM (λ lazy_callbacks func,
               lazy ← getattr_lazy func;
               if lazy : bool then
                 p ← partial (VStr event) [VFunc func];
                 mret (lazy_callbacks ++ [p])
               else invoke func (VStr event :: args) kwargs;;
                    mret lazy_callbacks)
            lazy_callbacks (all_events_listener this);
    for_ lazy_callbacks (λ func, call_callable func args kwargs).

(** Python calls [__getattr__] for a name that is not an attribute of the
    instance or of its class. *)
Definition __getattr__ (event : string) : result registrar :=
  if bool_decide (event = "__events__") then Raised (AttributeError event)
  else Returned (Registrar event).

(** The inner [register_event] of [__getattr__], applied as a decorator. *)
Definition registrar_call (g : registrar) (d : decoration) (func : nat)
    : M value :=
  match d with
  | Bare => register_event (captured_event g) func false;; mret (VFunc func)
  | WithLazy lazy =>
      register_event (captured_event g) func lazy;; mret (VFunc func)
  end.

End EventRegister.

(** [@events.<name>] or [@events.<name>(lazy=b)] over [def func], with the
    [__getattr__] of the register's class. *)
Definition decorate (lookup : string → result registrar) (name : string)
    (d : decoration) (func : nat) : M value :=
  match lookup name with
  | Returned g => EventRegister.registrar_call g d func
  | Raised e => raise e
  end.

(** ** [GEventRegister] *)

(** [s.replace('_', '-')] *)
Fixpoint replace_underscores (s : string) : string :=
  match s with
  | EmptyString => EmptyString
  | String c s' =>
      String (if Ascii.eqb c "_"%char then "-"%char else c)
             (replace_underscores s')
  end.

Module GEventRegister.

Definition __init__ (events : option (list string)) : EventRegister :=
  EventRegister.__init__ events.

Definition __getattr__ (event : string) : result registrar :=
  if bool_decide (event = "__events__") then Raised (AttributeError event)
  else EventRegister.__getattr__ (replace_underscores event).

(** Inherited from [EventRegister]. *)
Definition register_event := EventRegister.register_event.
Definition emit := EventRegister.emit.

End GEventRegister.

(** ** [GSignals] *)

Definition set_allowed (names : list string) : M unit :=
  this ← get_self;
  set_self {| strict := strict this; __events__ := names;
              events := events this;
              all_events_listener := all_events_listener this |}.

(** Reading [self.events.__events__].  The attribute is set by [__init__]
    together with [strict]; on a register that has none, the lookup ends in
    [GEventRegister.__getattr__], which raises [AttributeError]. *)
Definition get_allowed : M (list string) :=
  this ← get_self;
  if strict this then mret (__events__ this)
  else raise (AttributeError "__events__").

(** The store's [self] is the register held in the [events] attribute of the
    [GSignals] object; [sender] is the identity of that object. *)
Module GSignals.

(** The register is made from the class's [__events__], extended with the
    keys of [__gsignals__] when the class declares them. *)
Definition __init__ (declared : list string)
    (gsignals : option (list string)) : EventRegister :=
  match gsignals with
  | None => GEventRegister.__init__ (Some declared)
  | Some keys => GEventRegister.__init__ (Some (declared ++ keys))
  end.

Definition connect (signal : string) (callback : nat) (lazy : bool)
    : M unit :=
  GEventRegister.register_event signal callback lazy.

Definition emit (sender : nat) (signal : string) (args : list value)
    (kwargs : list (string * value)) : M unit :=
  GEventRegister.emit signal (VObj sender :: args) kwargs.

Definition add_events (names : list string) : M unit :=
  allowed ← get_allowed; set_allowed (allowed ++ names).

Definition add_event (event : string) : M unit :=
  allowed ← get_allowed; set_allowed (allowed ++ [event]).

End GSignals.

(** ** Running the model *)

Definition start (reg : EventRegister) : world :=
  {| self := reg; lazy_attr := ∅; log := [] |}.

Definition exec {A} (c : M A) (w : world) : world := (c w).2.
Definition outcome {A} (c : M A) (w : world) : result A := (c w).1.

(** The store [w] after the calls [cs]. *)
Definition add_log (cs : list call) (w : world) : world :=
  {| self := self w; lazy_attr := lazy_attr w; log := log w ++ cs |}.

(** [func] was registered lazy, respectively not lazy, the last time it was
    handed to [register_event]. *)
Definition is_lazy (h : gmap nat bool) (func : nat) : Prop :=
  h !! func = Some true.
Definition is_eager (h : gmap nat bool) (func : nat) : Prop :=
  h !! func = Some false.

#[global] Instance is_lazy_dec h func : Decision (is_lazy h func).
Proof. unfold is_lazy. apply _. Defined.
#[global] Instance is_eager_dec h func : Decision (is_eager h func).
Proof. unfold is_eager. apply _. Defined.

(** The callbacks registered for [event]. *)
Definition registered (reg : EventRegister) (event : string) : list nat :=
  default [] (events reg !! event).

(** Every callback held by the register has its [lazy] entry: true of every
    register that was filled through [register_event]. *)
Definition has_flag (h : gmap nat bool) (func : nat) : Prop :=
  is_Some (h !! func).

Definition flagged (w : world) : Prop :=
  (∀ event, Forall (has_flag (lazy_attr w)) (registered (self w) event)) ∧
  Forall (has_flag (lazy_attr w)) (all_events_listener (self w)).

(** The computation [c] leaves a flagged store flagged. *)
Definition keeps_flagged {A} (c : M A) : Prop :=
  ∀ w, flagged w → flagged (exec c w).

(** The computation [c] touches nothing but the log, every call it makes
    satisfies [P], a value it returns satisfies [Q], and it never raises
    [InvalidEvent]. *)
Definition frames {A} (P : call → Prop) (Q : A → Prop) (c : M A) : Prop :=
  ∀ w, ∃ cs, (c w).2 = add_log cs w ∧ Forall P cs ∧
    match (c w).1 with
    | Returned a => Q a
    | Raised e => ∀ event, e ≠ InvalidEvent event
    end.

(** The entry of [lazy_callbacks] is a plain function. *)
Definition is_func (c : callable) : Prop :=
  match c with
  | CFunc _ => True
  | CPartial _ _ => False
  end.

(** The calls of the functions of [l], in order, with the same arguments. *)
Definition calls (l : list nat) (args : list value)
    (kwargs : list (string * value)) : list call :=
  (λ func, Call func args kwargs) <$> l.

(** The store after [func.__dict__['lazy'] = lazy]. *)
Definition set_flag (func : nat) (lazy : bool) (w : world) : world :=
  {| self := self w; lazy_attr := <[func := lazy]> (lazy_attr w);
     log := log w |}.

(** The register with [callback] appended to the list of [event]. *)
Definition with_callback (event : string) (callback : nat)
    (reg : EventRegister) : EventRegister :=
  {| strict := strict reg; __events__ := __events__ reg;
     events := <[event := registered reg event ++ [callback]]> (events reg);
     all_events_listener := all_events_listener reg |}.

(** The register with [callback] appended to the all-listeners. *)
Definition with_listener (callback : nat) (reg : EventRegister)
    : EventRegister :=
  {| strict := strict reg; __events__ := __events__ reg;
     events := events reg;
     all_events_listener := all_events_listener reg ++ [callback] |}.

(** The three loops of [emit], as they stand in its body. *)
Definition event_loop (args : list value) (kwargs : list (string * value))
    (lazy_callbacks : list callable) (l : list nat) : M (list callable) :=
  foldM (λ lazy_callbacks func,
           lazy ← dict_getitem_lazy func;
           if lazy : bool then mret (lazy_callbacks ++ [CFunc func])
           else invoke func args kwargs;; mret lazy_callbacks)
        lazy_callbacks l.

Definition listener_loop (event : string) (args : list value)
    (kwargs : list (string * value)) (lazy_callbacks : list callable)
    (l : list nat) : M (list callable) :=
  foldM (λ lazy_callbacks func,
           lazy ← getattr_lazy func;
           if lazy : bool then
             p ← partial (VStr event) [VFunc func];
             mret (lazy_callbacks ++ [p])
           else invoke func (VStr event :: args) kwargs;;
                mret lazy_callbacks)
        lazy_callbacks l.

Definition lazy_loop (args : list value) (kwargs : list (string * value))
    (lazy_callbacks : list callable) : M unit :=
  for_ lazy_callbacks (λ func, call_callable func args kwargs).

(** A call that passes on the emitted arguments, as they are or after the
    name of the event. *)
Definition emitted (event : string) (args : list value)
    (kwargs : list (string * value)) (c : call) : Prop :=
  (call_args c = args ∨ call_args c = VStr event :: args) ∧
  call_kwargs c = kwargs.

(** ** The configuration round trip *)

Module Configuration.
Section Registry.

(** The values that fields hold. *)
Context {V : Type}.

(** Modelled from the spec: the interface of a field subtype
    ([gpyconf.fields] is not among the sources), a [validate] that coerces
    a raw value or fails with [ValidationError] ([None]), and a default. *)
Record FieldType := {
  validate : V → option V;
  default_value : V
}.

(** Modelled from the spec: a field of a configuration instance
    ([gpyconf.Configuration] is not among the sources), a typed slot with
    its current value; its name is its key in the mapping. *)
Record Field := {
  field_type : FieldType;
  current : V
}.

(** Modelled from the spec: one declaration entering the ordered mapping of
    the field registry, where a subclass's field of the same name replaces
    the ancestor's and is not added a second time. *)
Fixpoint declare (name : string) (t : FieldType)
    (fs : list (string * FieldType)) : list (string * FieldType) :=
  match fs with
  | [] => [(name, t)]
  | (n, t') :: fs' =>
      if bool_decide (n = name) then (name, t) :: fs'
      else (n, t') :: declare name t fs'
  end.

(** Modelled from the spec: the [fields] mapping of the registry, gathered
    from the inheritance chain, most-base class first; a class is the list
    of the fields it declares itself. *)
Definition collect (chain : list (list (string * FieldType)))
    : list (string * FieldType) :=
  foldl (foldl (λ fs d, declare d.1 d.2 fs)) [] chain.

(** Modelled from the spec: construction of a configuration instance, which
    loads each field from the persistence backend ([read(key)]) and falls
    back to the default of a field that the backend does not hold. *)
Definition construct (chain : list (list (string * FieldType)))
    (store : gmap string V) : list (string * Field) :=
  (λ d, (d.1, {| field_type := d.2;
                 current := default (default_value d.2) (store !! d.1) |}))
    <$> collect chain.

(** Modelled from the spec: the assignment [config.<name> = raw] of the
    registry, which validates against the field's type; [None] is
    [ValidationError].  A name that is no field is an ordinary attribute
    and leaves the fields alone. *)
Fixpoint setattr (name : string) (raw : V) (c : list (string * Field))
    : option (list (string * Field)) :=
  match c with
  | [] => Some []
  | (n, f) :: c' =>
      if bool_decide (n = name) then
        v ← validate (field_type f) raw;
        Some ((n, {| field_type := field_type f; current := v |}) :: c')
      else c'' ← setattr name raw c'; Some ((n, f) :: c'')
  end.

(** Modelled from the spec: reading [config.<name>] of the registry. *)
Fixpoint getattr (name : string) (c : list (string * Field)) : option V :=
  match c with
  | [] => None
  | (n, f) :: c' =>
      if bool_decide (n = name) then Some (current f) else getattr name c'
  end.

(** Modelled from the spec: [save()] of the registry, which writes every
    field's current value to the backend under the field's name
    ([write(key, value)]). *)
Definition save (c : list (string * Field)) (store : gmap string V)
    : gmap string V :=
  foldl (λ st nf, <[nf.1 := current nf.2]> st) store c.

(** Modelled from the spec: a run of assignments on an instance, stopping
    at the first [ValidationError]. *)
Fixpoint assign (vs : list (string * V)) (c : list (string * Field))
    : option (list (string * Field)) :=
  match vs with
  | [] => Some c
  | (name, raw) :: vs' => c' ← setattr name raw c; assign vs' c'
  end.

End Registry.
Arguments FieldType : clear implicits.
Arguments Field : clear implicits.
End Configuration.

(** The declarations behind the fields of an instance: names and types,
    without the current values. *)
Definition declarations {V} (c : list (string * Configuration.Field V))
    : list (string * Configuration.FieldType V) :=
  (λ nf, (nf.1, Configuration.field_type nf.2)) <$> c.

(** Modelled from the spec: the field subtypes used by the inheritance test
    ([gpyconf.fields] is not among the sources), each of which accepts the
    values of its own type as they are and refuses the others. *)
Definition IntegerField : Configuration.FieldType value :=
  {| Configuration.validate v :=
       match v with VInt _ => Some v | _ => None end;
     Configuration.default_value := VInt 0 |}.

Definition CharField : Configuration.FieldType value :=
  {| Configuration.validate v :=
       match v with VStr _ => Some v | _ => None end;
     Configuration.default_value := VStr "" |}.

Definition FloatField : Configuration.FieldType value :=
  {| Configuration.validate v :=
       match v with VFloat _ _ => Some v | _ => None end;
     Configuration.default_value := VFloat 0 0 |}.

(** The classes of [inheritance.py], most-base first: each declares one
    field. *)
Definition ConfigurationSuperclass :=
  [("field1_from_superclass", IntegerField)].
Definition ConfigurationSuperclass2 :=
  [("field1_from_superclass2", CharField)].
Definition InheritedConfiguration :=
  [ConfigurationSuperclass; ConfigurationSuperclass2;
   [("field1_from_subclass", FloatField)]].

(** The assignments of [InheritanceTest.runTest]; [round(math.pi, 10)] is
    the float [221069929751607 * 2^-46]. *)
Definition runTest_assignments : list (string * value) :=
  [("field1_from_superclass", VInt 42);
   ("field1_from_superclass2", VStr "hello world");
   ("field1_from_subclass", VFloat 221069929751607 (-46))].

(** The instance that the test saves. *)
Definition runTest_config : list (string * Configuration.Field value) :=
  [("field1_from_superclass",
    {| Configuration.field_type := IntegerField;
       Configuration.current := VInt 42 |});
   ("field1_from_superclass2",
    {| Configuration.field_type := CharField;
       Configuration.current := VStr "hello world" |});
   ("field1_from_subclass",
    {| Configuration.field_type := FloatField;
       Configuration.current := VFloat 221069929751607 (-46) |})].

(** ** Registers and stores used as examples *)

(** The strict register of the docstring. *)
Definition MyStrictEvents : EventRegister :=
  EventRegister.__init__ (Some ["hi"; "there"]).

(** [MyStrictEvents] after [on_hi] (1) was registered lazy for [hi]. *)
Definition strict_with_lazy_hi : world :=
  exec (EventRegister.register_event "hi" 1 true) (start MyStrictEvents).

(** A register without [__events__] that holds a callback (1), a lazy
    callback (2) and a lazy all-listener (3). *)
Definition with_lazy_listener : world :=
  exec (EventRegister.register_event "some_signal" 1 false;;
        EventRegister.register_event "some_signal" 2 true;;
        EventRegister.register_event "all" 3 true)
       (start (EventRegister.__init__ None)).

(** A register without [__events__] whose all-listeners are a lazy one (1)
    and then one that is not lazy (2). *)
Definition with_two_listeners : world :=
  exec (EventRegister.register_event "all" 1 true;;
        EventRegister.register_event "all" 2 false)
       (start (EventRegister.__init__ None)).

(** A [GSignals] object whose class declares [clicked], with a callback (1),
    a lazy callback (2) and an all-listener (3) connected. *)
Definition button : world :=
  exec (GSignals.connect "clicked" 1 false;;
        GSignals.connect "clicked" 2 true;;
        GSignals.connect "all" 3 false)
       (start (GSignals.__init__ ["clicked"] None)).


(** A register without [__events__] on which 1 was registered lazy and 2 not
    lazy, both for [a]. *)
Definition lazy_then_eager : world :=
  exec (EventRegister.register_event "a" 1 true;;
        EventRegister.register_event "a" 2 false)
       (start (EventRegister.__init__ None)).

(** ** Clients of a register *)

(** One call made by a client: [register_event] (also [r] and
    [GSignals.connect]), a decorator of [EventRegister] or of
    [GEventRegister], [emit] ([GSignals.emit] is [emit] with the sender in
    front of the arguments), or [GSignals.add_events]. *)
Inductive api_call :=
  | DoRegister (event : string) (callback : nat) (lazy : bool)
  | DoDecorate (name : string) (d : decoration) (func : nat)
  | DoGDecorate (name : string) (d : decoration) (func : nat)
  | DoEmit (event : string) (args : list value)
           (kwargs : list (string * value))
  | DoAddEvents (names : list string).

Definition perform (c : api_call) : M unit :=
  match c with
  | DoRegister event callback lazy =>
      EventRegister.register_event event callback lazy
  | DoDecorate name d func =>
      decorate EventRegister.__getattr__ name d func;; mret ()
  | DoGDecorate name d func =>
      decorate GEventRegister.__getattr__ name d func;; mret ()
  | DoEmit event args kwargs => EventRegister.emit event args kwargs
  | DoAddEvents names => GSignals.add_events names
  end.

(** The store after the calls [cs], made one after the other by a client
    that goes on after an exception with the store as the call left it. *)
Definition run_calls (cs : list api_call) (w : world) : world :=
  foldl (λ w c, exec (perform c) w) w cs.

(** What the calls of a client keep true of the register: its callbacks are
    flagged, the mapping of events has no entry for [all] and no empty list,
    and the names it holds passed the strict check. *)
Definition well_formed (w : world) : Prop :=
  flagged w ∧
  events (self w) !! "all" = None ∧
  (∀ event, events (self w) !! event ≠ Some []) ∧
  (∀ event, is_Some (events (self w) !! event) →
            not_allowed (self w) event = false).

(** A run of registrations [(event, callback, lazy)]. *)
Definition register_all (rs : list (string * nat * bool)) : M unit :=
  for_ rs (λ r, EventRegister.register_event r.1.1 r.1.2 r.2).

(** The callbacks that the registrations [rs] put under [event], in order. *)
Definition callbacks_for (event : string) (rs : list (string * nat * bool))
    : list nat :=
  (λ r, r.1.2) <$> filter (λ r, r.1.1 = event) rs.

(** The character [c] does not occur in [s]. *)
Fixpoint free_of (c : ascii) (s : string) : Prop :=
  match s with
  | EmptyString => True
  | String c' s' => c' ≠ c ∧ free_of c s'
  end.

(** ** The docstring's examples *)

(** [called_first] (1), [called_last] (2, lazy) and [called_second] (3) on
    [some_signal]. *)
Definition doc_lazy : M unit :=
  decorate EventRegister.__getattr__ "some_signal" Bare 1;;
  decorate EventRegister.__getattr__ "some_signal" (WithLazy true) 2;;
  decorate EventRegister.__getattr__ "some_signal" Bare 3;;
  EventRegister.emit "some_signal" [] [].

Example doc_lazy_log :
  log (exec doc_lazy (start (EventRegister.__init__ None))) =
    [Call 1 [] []; Call 3 [] []; Call 2 [] []].
Proof. vm_compute. reflexivity. Qed.

Example doc_strict :
  outcome (decorate EventRegister.__getattr__ "hi" Bare 1;;
           decorate EventRegister.__getattr__ "some_undefined_event" Bare 2)
          (start (EventRegister.__init__ (Some ["hi"; "there"]))) =
    Raised (InvalidEvent "some_undefined_event").
Proof. vm_compute. reflexivity. Qed.

Example doc_nobody_listening :
  exec (EventRegister.emit "foo" [] []) (start (EventRegister.__init__ None)) =
    start (EventRegister.__init__ None).
Proof. vm_compute. reflexivity. Qed.

(** ** The store and the log *)

Lemma add_log_nil w : add_log [] w = w.
Proof. destruct w. unfold add_log. simpl. by rewrite app_nil_r. Qed.

Lemma add_log_app cs1 cs2 w :
  add_log cs2 (add_log cs1 w) = add_log (cs1 ++ cs2) w.
Proof. unfold add_log. simpl. by rewrite app_assoc. Qed.

Lemma calls_app l1 l2 args kwargs :
  calls (l1 ++ l2) args kwargs = calls l1 args kwargs ++ calls l2 args kwargs.
Proof. unfold calls. apply fmap_app. Qed.

Lemma bind_run {A B} (c : M A) (k : A → M B) w :
  (c ≫= k) w =
    match c w with
    | (Returned a, w') => k a w'
    | (Raised e, w') => (Raised e, w')
    end.
Proof. reflexivity. Qed.

Lemma ret_run {A} (a : A) w : (mret a : M A) w = (Returned a, w).
Proof. reflexivity. Qed.

Lemma get_self_run w : get_self w = (Returned (self w), w).
Proof. reflexivity. Qed.

Lemma invoke_run func args kwargs w :
  invoke func args kwargs w = (Returned (), add_log [Call func args kwargs] w).
Proof. reflexivity. Qed.

(** ** What every run of the loops of [emit] has in common *)

Lemma frames_ret {A} (P : call → Prop) (Q : A → Prop) a :
  Q a → frames P Q (mret a).
Proof.
  intros Ha w. exists []. rewrite add_log_nil. by split_and!.
Qed.

Lemma frames_bind {A B} (P : call → Prop) (Q : A → Prop) (R : B → Prop)
    (c : M A) (k : A → M B) :
  frames P Q c → (∀ a, Q a → frames P R (k a)) → frames P R (c ≫= k).
Proof.
  intros Hc Hk w. rewrite bind_run.
  destruct (Hc w) as (cs & Hw & Hcs & Hres).
  destruct (c w) as [[a|e] w']; simpl in *; subst w'.
  - destruct (Hk a Hres (add_log cs w)) as (cs' & Hw' & Hcs' & Hres').
    exists (cs ++ cs'). rewrite Hw', add_log_app.
    split_and!; [done | by apply Forall_app | done].
  - exists cs. by split_and!.
Qed.

Lemma frames_weaken {A} (P : call → Prop) (Q Q' : A → Prop) (c : M A) :
  (∀ a, Q a → Q' a) → frames P Q c → frames P Q' c.
Proof.
  intros HQ Hc w. destruct (Hc w) as (cs & Hw & Hcs & Hres).
  exists cs. split_and!; [done..|].
  destruct (c w).1; auto.
Qed.

Lemma frames_invoke (P : call → Prop) func args kwargs :
  P (Call func args kwargs) → frames P (λ _, True) (invoke func args kwargs).
Proof.
  intros HP w. exists [Call func args kwargs]. rewrite invoke_run. simpl.
  split_and!; [done | by apply Forall_singleton | done].
Qed.

Lemma frames_dict_getitem_lazy (P : call → Prop) func :
  frames P (λ _, True) (dict_getitem_lazy func).
Proof.
  intros w. exists []. rewrite add_log_nil. unfold dict_getitem_lazy.
  destruct (lazy_attr w !! func); simpl; by split_and!.
Qed.

Lemma frames_getattr_lazy (P : call → Prop) func :
  frames P (λ _, True) (getattr_lazy func).
Proof.
  intros w. exists []. rewrite add_log_nil. unfold getattr_lazy.
  destruct (lazy_attr w !! func); simpl; by split_and!.
Qed.

Lemma frames_foldM {A B} (P : call → Prop) (Q : B → Prop)
    (body : B → A → M B) (l : list A) :
  (∀ acc x, Q acc → frames P Q (body acc x)) →
  ∀ acc, Q acc → frames P Q (foldM body acc l).
Proof.
  intros Hbody. induction l as [|x l IH]; intros acc Hacc; simpl.
  - by apply frames_ret.
  - eapply frames_bind; [by apply Hbody | done].
Qed.

Lemma frames_for_ {A} (P : call → Prop) (body : A → M unit) (l : list A) :
  Forall (λ x, frames P (λ _, True) (body x)) l →
  frames P (λ _, True) (for_ l body).
Proof.
  induction 1 as [|x l Hx _ IH]; simpl.
  - by apply frames_ret.
  - eapply frames_bind; [exact Hx | done].
Qed.

Lemma frames_event_loop event args kwargs l acc :
  Forall is_func acc →
  frames (emitted event args kwargs) (Forall is_func)
         (event_loop args kwargs acc l).
Proof.
  unfold event_loop. revert acc. apply frames_foldM. intros acc func Hacc.
  eapply frames_bind; [apply frames_dict_getitem_lazy|].
  intros [] _.
  - apply frames_ret. apply Forall_app. split; [done|].
    by apply Forall_singleton.
  - eapply frames_bind; [|intros; by apply frames_ret].
    apply frames_invoke. split; [by left | done].
Qed.

Lemma frames_listener_loop event args kwargs l acc :
  Forall is_func acc →
  frames (emitted event args kwargs) (Forall is_func)
         (listener_loop event args kwargs acc l).
Proof.
  unfold listener_loop. revert acc. apply frames_foldM. intros acc func Hacc.
  eapply frames_bind; [apply frames_getattr_lazy|].
  intros [] _.
  - intros w. exists []. rewrite add_log_nil. by split_and!.
  - eapply frames_bind; [|intros; by apply frames_ret].
    apply frames_invoke. split; [by right | done].
Qed.

Lemma frames_lazy_loop event args kwargs lazy_callbacks :
  Forall is_func lazy_callbacks →
  frames (emitted event args kwargs) (λ _, True)
         (lazy_loop args kwargs lazy_callbacks).
Proof.
  intros Hl. apply frames_for_. eapply Forall_impl; [exact Hl|].
  intros [f|f bound] Hf; [|done]. simpl.
  apply frames_invoke. split; [by left | done].
Qed.

(** ** [emit], loop by loop *)

Lemma events_getitem_known event l w :
  events (self w) !! event = Some l →
  events_getitem event w = (Returned l, w).
Proof.
  intros H. unfold events_getitem. rewrite bind_run. simpl. by rewrite H.
Qed.

Lemma emit_unfold event args kwargs w :
  EventRegister.emit event args kwargs w =
    if not_allowed (self w) event then (Raised (InvalidEvent event), w)
    else (lazy_callbacks ← event_loop args kwargs []
                                      (registered (self w) event);
          this ← get_self;
          lazy_callbacks ← listener_loop event args kwargs lazy_callbacks
                                         (all_events_listener this);
          lazy_loop args kwargs lazy_callbacks) w.
Proof.
  unfold EventRegister.emit, registered. rewrite bind_run. simpl.
  destruct (not_allowed (self w) event); [done|].
  rewrite !bind_run. unfold events_contains. rewrite bind_run. simpl.
  destruct (events (self w) !! event) as [l|] eqn:Hl; simpl.
  - rewrite !bind_run. by rewrite (events_getitem_known event l w Hl).
  - done.
Qed.

(** Whatever the store, an [emit] that passes the strict check touches
    nothing but the log, hands every callback it calls the emitted
    arguments, and does not raise [InvalidEvent]. *)
Lemma emit_frames event args kwargs w :
  not_allowed (self w) event = false →
  ∃ cs, exec (EventRegister.emit event args kwargs) w = add_log cs w ∧
        Forall (emitted event args kwargs) cs ∧
        ∀ e, outcome (EventRegister.emit event args kwargs) w
               ≠ Raised (InvalidEvent e).
Proof.
  intros Hok. unfold exec, outcome. rewrite emit_unfold, Hok.
  assert (frames (emitted event args kwargs) (λ _ : unit, True)
    (lazy_callbacks ← event_loop args kwargs [] (registered (self w) event);
     this ← get_self;
     lazy_callbacks ← listener_loop event args kwargs lazy_callbacks
                                    (all_events_listener this);
     lazy_loop args kwargs lazy_callbacks)) as Hf.
  { eapply frames_bind; [by apply (frames_event_loop event)|].
    intros lc Hlc.
    eapply (frames_bind _ (λ _, True)).
    { intros w'. exists []. rewrite add_log_nil. by split_and!. }
    intros this _.
    eapply frames_bind; [by apply frames_listener_loop|].
    intros lc' Hlc'. by apply frames_lazy_loop. }
  destruct (Hf w) as (cs & Hw & Hcs & Hres). exists cs.
  split_and!; [done..|]. intros e He. rewrite He in Hres. by eapply Hres.
Qed.

Lemma event_loop_run args kwargs l acc w :
  Forall (has_flag (lazy_attr w)) l →
  event_loop args kwargs acc l w =
    (Returned (acc ++ (CFunc <$> filter (is_lazy (lazy_attr w)) l)),
     add_log (calls (filter (is_eager (lazy_attr w)) l) args kwargs) w).
Proof.
  unfold event_loop. intros Hl. revert acc w Hl.
  induction l as [|func l IH]; intros acc w Hl; simpl.
  - by rewrite app_nil_r, add_log_nil.
  - apply Forall_cons in Hl as [[b Hb] Hl].
    rewrite !bind_run. unfold dict_getitem_lazy at 1. rewrite Hb.
    destruct b.
    + rewrite ret_run. cbn beta iota. rewrite IH by done.
      rewrite (filter_cons_True (is_lazy _)) by done.
      rewrite (filter_cons_False (is_eager _))
        by (unfold is_eager; congruence).
      by rewrite fmap_cons, <- app_assoc.
    + rewrite bind_run, invoke_run, ret_run. cbn beta iota.
      rewrite IH by done. cbn [lazy_attr add_log].
      rewrite (filter_cons_False (is_lazy _)) by (unfold is_lazy; congruence).
      rewrite (filter_cons_True (is_eager _)) by done.
      by rewrite add_log_app.
Qed.

Lemma listener_loop_run_eager event args kwargs l acc w :
  Forall (is_eager (lazy_attr w)) l →
  listener_loop event args kwargs acc l w =
    (Returned acc, add_log (calls l (VStr event :: args) kwargs) w).
Proof.
  unfold listener_loop. intros Hl. revert w Hl.
  induction l as [|func l IH]; intros w Hl; simpl.
  - by rewrite add_log_nil.
  - apply Forall_cons in Hl as [Hb Hl].
    rewrite !bind_run. unfold getattr_lazy at 1. rewrite Hb.
    rewrite bind_run, invoke_run, ret_run. cbn beta iota.
    rewrite IH by done. by rewrite add_log_app.
Qed.

(** The first lazy all-listener ends the loop: [partial] is handed the name
    of the event where it expects the function. *)
Lemma listener_loop_run_lazy event args kwargs pre func post acc w :
  Forall (is_eager (lazy_attr w)) pre →
  is_lazy (lazy_attr w) func →
  listener_loop event args kwargs acc (pre ++ func :: post) w =
    (Raised (TypeError "the first argument must be callable"),
     add_log (calls pre (VStr event :: args) kwargs) w).
Proof.
  unfold listener_loop. intros Hpre Hf. revert w Hpre Hf.
  induction pre as [|g pre IH]; intros w Hpre Hf; simpl.
  - rewrite !bind_run. unfold getattr_lazy at 1. rewrite Hf.
    by rewrite add_log_nil.
  - apply Forall_cons in Hpre as [Hb Hpre].
    rewrite !bind_run. unfold getattr_lazy at 1. rewrite Hb.
    rewrite bind_run, invoke_run, ret_run. cbn beta iota.
    rewrite IH by done. by rewrite add_log_app.
Qed.

Lemma lazy_loop_run args kwargs l w :
  lazy_loop args kwargs (CFunc <$> l) w =
    (Returned (), add_log (calls l args kwargs) w).
Proof.
  unfold lazy_loop. revert w. induction l as [|func l IH]; intros w; simpl.
  - by rewrite add_log_nil.
  - rewrite bind_run. unfold call_callable at 1. rewrite invoke_run.
    cbn beta iota. by rewrite IH, add_log_app.
Qed.

(** With no lazy all-listener, [emit] calls the callbacks of the event that
    are not lazy, then the all-listeners, then the lazy callbacks of the
    event. *)
Lemma emit_run_eager event args kwargs w :
  flagged w →
  not_allowed (self w) event = false →
  Forall (is_eager (lazy_attr w)) (all_events_listener (self w)) →
  EventRegister.emit event args kwargs w =
    (Returned (),
     add_log
       (calls (filter (is_eager (lazy_attr w)) (registered (self w) event))
              args kwargs ++
        calls (all_events_listener (self w)) (VStr event :: args) kwargs ++
        calls (filter (is_lazy (lazy_attr w)) (registered (self w) event))
              args kwargs) w).
Proof.
  intros [Hev _] Hok Hall. rewrite emit_unfold, Hok.
  rewrite bind_run, event_loop_run by apply Hev. cbn beta iota.
  rewrite bind_run, get_self_run. cbn beta iota.
  rewrite bind_run. cbn [self add_log app].
  rewrite listener_loop_run_eager by done. cbn beta iota.
  rewrite lazy_loop_run. by rewrite !add_log_app.
Qed.

(** With a lazy all-listener, [emit] ends in [TypeError] when it reaches the
    first one: the lazy callbacks are never called. *)
Lemma emit_run_lazy_listener event args kwargs pre func post w :
  flagged w →
  not_allowed (self w) event = false →
  all_events_listener (self w) = pre ++ func :: post →
  Forall (is_eager (lazy_attr w)) pre →
  is_lazy (lazy_attr w) func →
  EventRegister.emit event args kwargs w =
    (Raised (TypeError "the first argument must be callable"),
     add_log
       (calls (filter (is_eager (lazy_attr w)) (registered (self w) event))
              args kwargs ++
        calls pre (VStr event :: args) kwargs) w).
Proof.
  intros [Hev _] Hok Hall Hpre Hf. rewrite emit_unfold, Hok.
  rewrite bind_run, event_loop_run by apply Hev. cbn beta iota.
  rewrite bind_run, get_self_run. cbn beta iota.
  rewrite bind_run. cbn [self add_log app]. rewrite Hall.
  rewrite listener_loop_run_lazy by done. cbn beta iota.
  by rewrite !add_log_app.
Qed.

(** ** [register_event], case by case *)

Lemma register_event_run event callback lazy w :
  EventRegister.register_event event callback lazy w =
    if bool_decide (event = "all") then
      (Returned (),
       {| self := with_listener callback (self w);
          lazy_attr := <[callback := lazy]> (lazy_attr w); log := log w |})
    else if not_allowed (self w) event then
      (Raised (InvalidEvent event), set_flag callback lazy w)
    else
      (Returned (),
       {| self := with_callback event callback (self w);
          lazy_attr := <[callback := lazy]> (lazy_attr w); log := log w |}).
Proof.
  unfold EventRegister.register_event. rewrite bind_run.
  unfold dict_setitem_lazy at 1. cbn beta iota.
  case_bool_decide as Hall; [done|].
  rewrite bind_run, get_self_run. cbn beta iota. cbn [self].
  destruct (not_allowed (self w) event); [done|].
  unfold events_append, events_getitem, with_callback, registered.
  rewrite !bind_run, get_self_run. cbn beta iota. cbn [self].
  destruct (events (self w) !! event) as [l|]; simpl; [done|].
  unfold set_events. rewrite !bind_run, !get_self_run. simpl.
  by rewrite insert_insert_eq.
Qed.

Lemma registered_with_callback event callback reg name :
  registered (with_callback event callback reg) name =
    if decide (event = name) then registered reg event ++ [callback]
    else registered reg name.
Proof.
  unfold registered at 1, with_callback. cbn [events].
  rewrite lookup_insert. by case_decide.
Qed.

Lemma flagged_start reg :
  events reg = ∅ → all_events_listener reg = [] → flagged (start reg).
Proof.
  intros Hev Hall. split.
  - intros event. unfold registered. simpl. by rewrite Hev, lookup_empty.
  - simpl. by rewrite Hall.
Qed.

(** [register_event] keeps every callback of the register flagged, also
    when it raises. *)
Lemma flagged_register_event event callback lazy w :
  flagged w →
  flagged (exec (EventRegister.register_event event callback lazy) w).
Proof.
  intros [Hev Hall]. unfold exec. rewrite register_event_run.
  assert (∀ l, Forall (has_flag (lazy_attr w)) l →
               Forall (has_flag (<[callback := lazy]> (lazy_attr w))) l)
    as Hmono.
  { intros l Hl. eapply Forall_impl; [exact Hl|].
    intros func [b Hb]. unfold has_flag.
    rewrite lookup_insert. case_decide; eauto. }
  assert (has_flag (<[callback := lazy]> (lazy_attr w)) callback) as Hnew.
  { unfold has_flag. rewrite lookup_insert_eq. eauto. }
  case_bool_decide; [|destruct (not_allowed (self w) event)]; split; simpl.
  - intros name. apply Hmono, (Hev name).
  - apply Forall_app. split; [by apply Hmono | by apply Forall_singleton].
  - intros name. by apply Hmono.
  - by apply Hmono.
  - intros name. rewrite registered_with_callback. case_decide.
    + apply Forall_app. split; [by apply Hmono | by apply Forall_singleton].
    + by apply Hmono.
  - by apply Hmono.
Qed.

Lemma keeps_flagged_register_event event callback lazy :
  keeps_flagged (EventRegister.register_event event callback lazy).
Proof. intros w. apply flagged_register_event. Qed.

Lemma keeps_flagged_bind {A B} (c : M A) (k : A → M B) :
  keeps_flagged c → (∀ a, keeps_flagged (k a)) → keeps_flagged (c ≫= k).
Proof.
  intros Hc Hk w Hw. unfold exec. rewrite bind_run.
  specialize (Hc w Hw). unfold exec in Hc.
  destruct (c w) as [[a|e] w']; simpl in *; [|done].
  by apply (Hk a).
Qed.

(** ** The strict check *)

Lemma not_allowed_spec reg event :
  not_allowed reg event = true ↔
  strict reg = true ∧ event ∉ __events__ reg.
Proof.
  unfold not_allowed. rewrite andb_true_iff, negb_true_iff.
  by rewrite bool_decide_eq_false.
Qed.

Lemma emit_invalid_event event args kwargs w e :
  outcome (EventRegister.emit event args kwargs) w = Raised (InvalidEvent e) →
  not_allowed (self w) event = true ∧ e = event.
Proof.
  intros He. destruct (not_allowed (self w) event) eqn:Hna.
  - unfold outcome in He. rewrite emit_unfold, Hna in He. simpl in He.
    split; [done | congruence].
  - destruct (emit_frames event args kwargs w Hna) as (_ & _ & _ & Hno).
    by destruct (Hno e).
Qed.

Lemma register_event_invalid_event event callback lazy w e :
  outcome (EventRegister.register_event event callback lazy) w
    = Raised (InvalidEvent e) →
  event ≠ "all" ∧ not_allowed (self w) event = true ∧ e = event.
Proof.
  unfold outcome. rewrite register_event_run.
  case_bool_decide; [done|].
  destruct (not_allowed (self w) event); [|done].
  simpl. intros [= <-]. done.
Qed.

(** C3, as stated, fails for the name [all]: [register_event] accepts it on a
    strict register whose [__events__] does not hold it. *)
Lemma strict_register_all_not_refused :
  strict MyStrictEvents = true ∧
  ("all" ∉ __events__ MyStrictEvents) ∧
  outcome (EventRegister.register_event "all" 1 false) (start MyStrictEvents)
    = Returned ().
Proof.
  split_and!; [done | | done].
  apply (bool_decide_eq_false_1 _). by vm_compute.
Qed.

(** C3, amended: on a strict register, [emit] with a name outside
    [__events__] raises [InvalidEvent] with that name, and so does
    [register_event] unless the name is [all]; with a name inside
    [__events__] neither of them raises [InvalidEvent]. *)
Theorem strict_invalid_event w event callback lazy args kwargs :
  strict (self w) = true →
  (event ∉ __events__ (self w) →
     outcome (EventRegister.emit event args kwargs) w
       = Raised (InvalidEvent event) ∧
     (event ≠ "all" →
        outcome (EventRegister.register_event event callback lazy) w
          = Raised (InvalidEvent event))) ∧
  (event ∈ __events__ (self w) →
     ∀ e,
       outcome (EventRegister.emit event args kwargs) w
         ≠ Raised (InvalidEvent e) ∧
       outcome (EventRegister.register_event event callback lazy) w
         ≠ Raised (InvalidEvent e)).
Proof.
  intros Hstrict. split.
  - intros Hout.
    assert (not_allowed (self w) event = true) as Hna
      by by apply not_allowed_spec.
    split.
    + unfold outcome. by rewrite emit_unfold, Hna.
    + intros Hall. unfold outcome. rewrite register_event_run, Hna.
      by rewrite bool_decide_eq_false_2.
  - intros Hin e. split; intros He.
    + apply emit_invalid_event in He as [Hna _].
      apply not_allowed_spec in Hna as [_ Hout]. done.
    + apply register_event_invalid_event in He as (_ & Hna & _).
      apply not_allowed_spec in Hna as [_ Hout]. done.
Qed.

Lemma strict_invalid_event_witness :
  strict (self (start MyStrictEvents)) = true ∧
  outcome (EventRegister.emit "some_undefined_event" [] [])
          (start MyStrictEvents)
    = Raised (InvalidEvent "some_undefined_event") ∧
  outcome (EventRegister.register_event "some_undefined_event" 1 false)
          (start MyStrictEvents)
    = Raised (InvalidEvent "some_undefined_event") ∧
  outcome (EventRegister.emit "hi" [] []) (start MyStrictEvents)
    ≠ Raised (InvalidEvent "hi") ∧
  outcome (EventRegister.register_event "hi" 1 false) (start MyStrictEvents)
    ≠ Raised (InvalidEvent "hi").
Proof.
  assert ("some_undefined_event" ∉ __events__ (self (start MyStrictEvents)))
    as Hout by (apply (bool_decide_eq_false_1 _); by vm_compute).
  assert ("hi" ∈ __events__ (self (start MyStrictEvents)))
    as Hin by (apply (bool_decide_eq_true_1 _); by vm_compute).
  split; [reflexivity|].
  destruct (strict_invalid_event (start MyStrictEvents)
              "some_undefined_event" 1 false [] [] eq_refl) as [Hbad _].
  destruct (strict_invalid_event (start MyStrictEvents)
              "hi" 1 false [] [] eq_refl) as [_ Hgood].
  destruct (Hbad Hout) as [Hemit Hreg].
  destruct (Hgood Hin "hi") as [Hemit' Hreg'].
  split; [exact Hemit|]. split; [apply Hreg; discriminate|].
  split; [exact Hemit' | exact Hreg'].
Defined.

(** C10: [register_event] under the name [all] never raises [InvalidEvent]
    (it returns, whatever the register, and the callback joins the
    all-listeners), while [emit] of [all] raises [InvalidEvent] exactly when
    the register is strict and [all] is not in its [__events__]. *)
Theorem all_skips_strict_check_on_register_only w callback lazy args kwargs :
  outcome (EventRegister.register_event "all" callback lazy) w = Returned () ∧
  all_events_listener
    (self (exec (EventRegister.register_event "all" callback lazy) w))
    = all_events_listener (self w) ++ [callback] ∧
  (outcome (EventRegister.emit "all" args kwargs) w
     = Raised (InvalidEvent "all") ↔
   strict (self w) = true ∧ "all" ∉ __events__ (self w)).
Proof.
  unfold outcome, exec. rewrite register_event_run. simpl.
  split_and!; [done..|]. split.
  - intros He. apply emit_invalid_event in He as [Hna _].
    by apply not_allowed_spec.
  - intros Hna. apply not_allowed_spec in Hna.
    by rewrite emit_unfold, Hna.
Qed.

(** C5: on a register that is not strict, [emit] of a name with no callback
    registered for it and no all-listener returns and leaves the whole
    store as it was: no call is logged and the register is unchanged. *)
Theorem emit_nobody_listening w event args kwargs :
  strict (self w) = false →
  registered (self w) event = [] →
  all_events_listener (self w) = [] →
  EventRegister.emit event args kwargs w = (Returned (), w).
Proof.
  intros Hstrict Hev Hall. rewrite emit_unfold.
  unfold not_allowed. rewrite Hstrict, Hev. cbn [andb].
  rewrite bind_run. unfold event_loop. cbn [foldM]. rewrite ret_run.
  cbn beta iota. rewrite bind_run, get_self_run. cbn beta iota.
  by rewrite Hall.
Qed.

Lemma emit_nobody_listening_witness :
  strict (self (start (EventRegister.__init__ None))) = false ∧
  registered (self (start (EventRegister.__init__ None))) "foo" = [] ∧
  all_events_listener (self (start (EventRegister.__init__ None))) = [] ∧
  EventRegister.emit "foo" [VInt 42] [] (start (EventRegister.__init__ None))
    = (Returned (), start (EventRegister.__init__ None)).
Proof.
  split; [reflexivity|]. split; [reflexivity|]. split; [reflexivity|].
  apply (emit_nobody_listening (start (EventRegister.__init__ None)) "foo");
    reflexivity.
Defined.

(** ** What a refused call leaves behind *)

(** C4, as stated, fails for the callback passed to [register_event]: its
    [lazy] entry is written before the strict check, so a refused
    registration turns the lazy [on_hi] into a callback that is not lazy. *)
Lemma refused_register_event_rewrites_flag :
  lazy_attr strict_with_lazy_hi !! 1 = Some true ∧
  outcome (EventRegister.register_event "bye" 1 false) strict_with_lazy_hi
    = Raised (InvalidEvent "bye") ∧
  lazy_attr (exec (EventRegister.register_event "bye" 1 false)
                  strict_with_lazy_hi) !! 1 = Some false.
Proof. split_and!; by vm_compute. Qed.

(** C4, amended: when [register_event] raises [InvalidEvent], the register
    (the mapping of events, the all-listeners, the strict flag and
    [__events__]) and the log are as before, and the only thing written is
    the [lazy] entry of the callback passed; when [emit] raises
    [InvalidEvent], the whole store is as before, so nothing was called. *)
Theorem invalid_event_leaves_register w event callback lazy args kwargs e :
  (outcome (EventRegister.register_event event callback lazy) w
     = Raised (InvalidEvent e) →
   self (exec (EventRegister.register_event event callback lazy) w) = self w ∧
   log (exec (EventRegister.register_event event callback lazy) w) = log w ∧
   lazy_attr (exec (EventRegister.register_event event callback lazy) w)
     = <[callback := lazy]> (lazy_attr w)) ∧
  (outcome (EventRegister.emit event args kwargs) w
     = Raised (InvalidEvent e) →
   exec (EventRegister.emit event args kwargs) w = w).
Proof.
  split.
  - intros He. apply register_event_invalid_event in He as (Hall & Hna & _).
    unfold exec. rewrite register_event_run, Hna.
    by rewrite bool_decide_eq_false_2.
  - intros He. apply emit_invalid_event in He as [Hna _].
    unfold exec. by rewrite emit_unfold, Hna.
Qed.

Lemma invalid_event_leaves_register_witness :
  self (exec (EventRegister.register_event "bye" 1 false)
             strict_with_lazy_hi) = self strict_with_lazy_hi ∧
  log (exec (EventRegister.register_event "bye" 1 false)
            strict_with_lazy_hi) = log strict_with_lazy_hi ∧
  lazy_attr (exec (EventRegister.register_event "bye" 1 false)
                  strict_with_lazy_hi)
    = <[1 := false]> (lazy_attr strict_with_lazy_hi) ∧
  exec (EventRegister.emit "bye" [] []) strict_with_lazy_hi
    = strict_with_lazy_hi.
Proof.
  destruct (invalid_event_leaves_register strict_with_lazy_hi
              "bye" 1 false [] [] "bye") as [Hreg Hemit].
  destruct (Hreg eq_refl) as (Hself & Hlog & Hflag).
  split; [exact Hself|]. split; [exact Hlog|]. split; [exact Hflag|].
  exact (Hemit eq_refl).
Defined.

(** ** Where the [lazy] flag lives *)



(** ** The order of the calls *)

(** C1: with a lazy all-listener on the register, [emit] does not reach its
    last phase.  On [with_lazy_listener] it calls the callback that is not
    lazy (1) and then raises [TypeError] where it collects the lazy
    all-listener (3): [partial] is given the name of the event in the place
    of the function.  The lazy callback (2) and the lazy all-listener are
    never called, where the order of the claim is 1, then 2, then 3 with the
    name of the event first. *)
Theorem emit_lazy_listener_type_error :
  outcome (EventRegister.emit "some_signal" [VInt 42] []) with_lazy_listener
    = Raised (TypeError "the first argument must be callable") ∧
  log (exec (EventRegister.emit "some_signal" [VInt 42] [])
            with_lazy_listener)
    = [Call 1 [VInt 42] []].
Proof. split; by vm_compute. Qed.

(** C2: a lazy all-listener is never called.  On [with_two_listeners],
    [emit] raises [TypeError] at the lazy all-listener (1), before it gets
    to the all-listener that is not lazy (2): nothing is called at all. *)
Theorem emit_lazy_listener_never_called :
  outcome (EventRegister.emit "some_signal" [VInt 42] []) with_two_listeners
    = Raised (TypeError "the first argument must be callable") ∧
  log (exec (EventRegister.emit "some_signal" [VInt 42] [])
            with_two_listeners)
    = [].
Proof. split; by vm_compute. Qed.

(** ** [GSignals] *)

(** C7: an all-listener is not handed the emitting object first.  On
    [button], [GSignals.emit] calls the callbacks connected to the signal (1
    and the lazy 2) with the emitting object (9) first, but the all-listener
    (3) with the name of the signal first and the emitting object second,
    where the docstring of [GSignals] has connected callbacks always take
    the sender as first argument.  Once a lazy all-listener (4) is
    connected as well, [GSignals.emit] raises [TypeError] when it reaches
    it, and neither it nor the lazy callback (2) is called. *)
Lemma gsignals_listener_gets_signal_first :
  log (exec (GSignals.emit 9 "clicked" [VInt 5] []) button)
    = [Call 1 [VObj 9; VInt 5] [];
       Call 3 [VStr "clicked"; VObj 9; VInt 5] [];
       Call 2 [VObj 9; VInt 5] []] ∧
  outcome (GSignals.connect "all" 4 true;;
           GSignals.emit 9 "clicked" [VInt 5] []) button
    = Raised (TypeError "the first argument must be callable") ∧
  log (exec (GSignals.connect "all" 4 true;;
             GSignals.emit 9 "clicked" [VInt 5] []) button)
    = [Call 1 [VObj 9; VInt 5] [];
       Call 3 [VStr "clicked"; VObj 9; VInt 5] []].
Proof. split_and!; by vm_compute. Qed.

(** For a signal that passes the strict check, on a register whose callbacks
    are flagged and none of whose all-listeners is lazy, [GSignals.emit]
    returns and puts the emitting object in front of the emitted arguments:
    the callbacks connected to the signal, lazy or not, are called with the
    emitting object first, and the all-listeners with the name of the signal
    first and the emitting object second, in the order of [emit]. *)
Theorem gsignals_emit_passes_sender w sender signal args kwargs :
  flagged w →
  not_allowed (self w) signal = false →
  Forall (is_eager (lazy_attr w)) (all_events_listener (self w)) →
  GSignals.emit sender signal args kwargs w =
    (Returned (),
     add_log
       (calls (filter (is_eager (lazy_attr w)) (registered (self w) signal))
              (VObj sender :: args) kwargs ++
        calls (all_events_listener (self w))
              (VStr signal :: VObj sender :: args) kwargs ++
        calls (filter (is_lazy (lazy_attr w)) (registered (self w) signal))
              (VObj sender :: args) kwargs) w).
Proof.
  intros Hw Hok Hall. unfold GSignals.emit, GEventRegister.emit.
  by apply emit_run_eager.
Qed.

Lemma gsignals_emit_passes_sender_witness :
  flagged button ∧
  not_allowed (self button) "clicked" = false ∧
  Forall (is_eager (lazy_attr button)) (all_events_listener (self button)) ∧
  GSignals.emit 9 "clicked" [VInt 5] [] button =
    (Returned (),
     add_log
       (calls (filter (is_eager (lazy_attr button))
                      (registered (self button) "clicked"))
              [VObj 9; VInt 5] [] ++
        calls (all_events_listener (self button))
              [VStr "clicked"; VObj 9; VInt 5] [] ++
        calls (filter (is_lazy (lazy_attr button))
                      (registered (self button) "clicked"))
              [VObj 9; VInt 5] []) button).
Proof.
  assert (flagged button) as Hw.
  { unfold button. apply keeps_flagged_bind; [| |by apply flagged_start].
    - apply keeps_flagged_register_event.
    - intros _. apply keeps_flagged_bind.
      + apply keeps_flagged_register_event.
      + intros _. apply keeps_flagged_register_event. }
  assert (Forall (is_eager (lazy_attr button))
                 (all_events_listener (self button))) as Hall.
  { apply Forall_singleton. by vm_compute. }
  split; [exact Hw|]. split; [reflexivity|]. split; [exact Hall|].
  exact (gsignals_emit_passes_sender button 9 "clicked" [VInt 5] []
           Hw eq_refl Hall).
Defined.

(** ** [GEventRegister]: underscores and hyphens *)

Lemma replace_underscores_not_events s :
  replace_underscores s ≠ "__events__".
Proof.
  destruct s as [|c s]; simpl; [done|]. intros [= Hc _].
  destruct (Ascii.eqb_spec c "_"); [done | congruence].
Qed.

Lemma replace_underscores_idemp s :
  replace_underscores (replace_underscores s) = replace_underscores s.
Proof.
  induction s as [|c s IH]; simpl; [done|]. rewrite IH. f_equal.
  destruct (Ascii.eqb_spec c "_") as [->|Hc]; [done|].
  by rewrite (proj2 (Ascii.eqb_neq c "_")).
Qed.

Lemma ggetattr_run name :
  name ≠ "__events__" →
  GEventRegister.__getattr__ name
    = Returned (Registrar (replace_underscores name)).
Proof.
  intros Hname. unfold GEventRegister.__getattr__, EventRegister.__getattr__.
  rewrite bool_decide_eq_false_2 by done.
  by rewrite bool_decide_eq_false_2 by apply replace_underscores_not_events.
Qed.




(** ** The configuration round trip *)

Section RoundTrip.
Context {V : Type}.
Implicit Types (c : list (string * Configuration.Field V)).
Implicit Types (fs : list (string * Configuration.FieldType V)).
Implicit Types (store : gmap string V).

Lemma declare_names name t fs :
  (Configuration.declare name t fs).*1
    = if decide (name ∈ fs.*1) then fs.*1 else fs.*1 ++ [name].
Proof.
  induction fs as [|[n t'] fs IH].
  - case_decide as Hin; [by apply elem_of_nil in Hin | done].
  - cbn [Configuration.declare]. rewrite !fmap_cons. cbn [fst].
    case_bool_decide as Hn.
    + subst n. rewrite fmap_cons. cbn [fst].
      destruct (decide (name ∈ name :: fs.*1)) as [_|Hin]; [done|].
      destruct Hin. by left.
    + rewrite fmap_cons, IH. cbn [fst].
      destruct (decide (name ∈ fs.*1)) as [Hin|Hout].
      * destruct (decide (name ∈ n :: fs.*1)) as [_|Hin']; [done|].
        destruct Hin'. by right.
      * destruct (decide (name ∈ n :: fs.*1)) as [Hin'|_]; [|done].
        apply elem_of_cons in Hin' as [?|?]; [by subst | done].
Qed.

Lemma declare_NoDup name t fs :
  NoDup fs.*1 → NoDup (Configuration.declare name t fs).*1.
Proof.
  intros Hfs. rewrite declare_names.
  destruct (decide (name ∈ fs.*1)) as [Hin|Hout]; [done|].
  apply NoDup_app. split_and!; [done| |apply NoDup_singleton].
  intros n Hn ->%list_elem_of_singleton. done.
Qed.

Lemma collect_NoDup (chain : list (list (string * Configuration.FieldType V))) :
  NoDup (Configuration.collect chain).*1.
Proof.
  unfold Configuration.collect.
  assert (∀ cls fs, NoDup fs.*1 →
            NoDup (foldl (λ fs d, Configuration.declare d.1 d.2 fs) fs cls).*1)
    as Hcls.
  { induction cls as [|d cls IH]; intros fs Hfs; simpl; [done|].
    by apply IH, declare_NoDup. }
  assert (∀ fs, NoDup fs.*1 →
            NoDup (foldl (foldl (λ fs d, Configuration.declare d.1 d.2 fs))
                         fs chain).*1) as Hchain.
  { induction chain as [|cls chain IH]; intros fs Hfs; simpl; [done|].
    by apply IH, Hcls. }
  apply Hchain. simpl. apply NoDup_nil_2.
Qed.

Lemma declarations_cons n (f : Configuration.Field V) c :
  declarations ((n, f) :: c)
    = (n, Configuration.field_type f) :: declarations c.
Proof. reflexivity. Qed.

Lemma declarations_construct chain store :
  declarations (Configuration.construct chain store)
    = Configuration.collect chain.
Proof.
  unfold declarations, Configuration.construct.
  induction (Configuration.collect chain) as [|[n t] fs IH]; [done|].
  rewrite !fmap_cons. by f_equal.
Qed.

Lemma declarations_setattr name raw c c' :
  Configuration.setattr name raw c = Some c' →
  declarations c' = declarations c.
Proof.
  revert c'. induction c as [|[n f] c IH]; intros c' Hset; simpl in Hset.
  - by injection Hset as <-.
  - case_bool_decide.
    + destruct (Configuration.validate _ raw); simpl in Hset; [|done].
      by injection Hset as <-.
    + destruct (Configuration.setattr name raw c) as [c''|]; simpl in Hset;
        [|done].
      injection Hset as <-. rewrite !declarations_cons.
      by rewrite (IH c'').
Qed.

Lemma declarations_assign vs c c' :
  Configuration.assign vs c = Some c' → declarations c' = declarations c.
Proof.
  revert c. induction vs as [|[name raw] vs IH]; intros c Hvs; simpl in Hvs.
  - by injection Hvs as <-.
  - destruct (Configuration.setattr name raw c) as [c''|] eqn:Hset;
      simpl in Hvs; [|done].
    rewrite (IH _ Hvs). by eapply declarations_setattr.
Qed.

Lemma names_declarations c : (declarations c).*1 = c.*1.
Proof.
  induction c as [|[n f] c IH]; [done|].
  rewrite declarations_cons, !fmap_cons. by rewrite IH.
Qed.

Lemma save_lookup_other c store name :
  name ∉ c.*1 → Configuration.save c store !! name = store !! name.
Proof.
  unfold Configuration.save. revert store.
  induction c as [|[n f] c IH]; intros store Hname; simpl; [done|].
  simpl in Hname. apply not_elem_of_cons in Hname as [Hne Hname].
  rewrite IH by done. by rewrite lookup_insert_ne.
Qed.

Lemma save_lookup c store name f :
  NoDup c.*1 → (name, f) ∈ c →
  Configuration.save c store !! name = Some (Configuration.current f).
Proof.
  revert store. induction c as [|[n f'] c IH]; intros store Hc Hin.
  - by apply elem_of_nil in Hin.
  - simpl in Hc. apply NoDup_cons in Hc as [Hn Hc].
    apply elem_of_cons in Hin as [[= -> ->]|Hin].
    + change (Configuration.save ((n, f') :: c) store)
        with (Configuration.save c (<[n := Configuration.current f']> store)).
      rewrite save_lookup_other by done. by rewrite lookup_insert_eq.
    + by apply IH.
Qed.

(** Loading the declarations of [c] from a backend that holds the current
    value of every field of [c] gives [c] back. *)
Lemma load_declarations c store :
  (∀ name f, (name, f) ∈ c →
     store !! name = Some (Configuration.current f)) →
  (λ d, (d.1, {| Configuration.field_type := d.2;
                 Configuration.current :=
                   default (Configuration.default_value d.2) (store !! d.1) |}))
    <$> declarations c = c.
Proof.
  induction c as [|[n f] c IH]; intros Hc; [done|].
  rewrite declarations_cons, fmap_cons.
  rewrite IH by (intros name g Hg; apply Hc; by right).
  cbn [fst snd]. rewrite (Hc n f) by by left. by destruct f.
Qed.

(** C9: for every chain of configuration classes, every backend and every
    run of assignments that pass validation on a fresh instance, [save]
    followed by the construction of a fresh instance of the same class gives
    the saved instance back: every field, inherited or not, reads the value
    it had before the save. *)
Theorem save_then_construct
    (chain : list (list (string * Configuration.FieldType V)))
    (vs : list (string * V)) store c :
  Configuration.assign vs (Configuration.construct chain store) = Some c →
  Configuration.construct chain (Configuration.save c store) = c ∧
  ∀ name,
    Configuration.getattr name
      (Configuration.construct chain (Configuration.save c store))
      = Configuration.getattr name c.
Proof.
  intros Hvs.
  assert (Configuration.construct chain (Configuration.save c store) = c)
    as Hc; [|by rewrite Hc].
  assert (declarations c = Configuration.collect chain) as Hdecl.
  { rewrite (declarations_assign _ _ _ Hvs). apply declarations_construct. }
  unfold Configuration.construct. rewrite <- Hdecl.
  apply load_declarations. intros name f Hin. apply save_lookup; [|done].
  rewrite <- names_declarations, Hdecl. apply collect_NoDup.
Qed.

End RoundTrip.

Lemma save_then_construct_witness :
  Configuration.assign runTest_assignments
    (Configuration.construct InheritedConfiguration ∅)
    = Some runTest_config ∧
  Configuration.construct InheritedConfiguration
    (Configuration.save runTest_config ∅) = runTest_config ∧
  Configuration.getattr "field1_from_subclass"
    (Configuration.construct InheritedConfiguration
       (Configuration.save runTest_config ∅))
    = Some (VFloat 221069929751607 (-46)).
Proof.
  assert (Configuration.assign runTest_assignments
            (Configuration.construct InheritedConfiguration ∅)
            = Some runTest_config) as Hvs by reflexivity.
  destruct (save_then_construct InheritedConfiguration runTest_assignments
              ∅ runTest_config Hvs) as [Hc Hget].
  split; [exact Hvs|]. split; [exact Hc|].
  rewrite (Hget "field1_from_subclass"). reflexivity.
Defined.

(** ** More on [emit] *)

Lemma listeners_split (h : gmap nat bool) (l : list nat) :
  Forall (has_flag h) l →
  Forall (is_eager h) l ∨
  ∃ pre func post,
    l = pre ++ func :: post ∧ Forall (is_eager h) pre ∧ is_lazy h func.
Proof.
  induction 1 as [|g l [b Hb] _ IH]; [by left|].
  destruct b.
  - right. exists [], g, l. by split_and!.
  - destruct IH as [IH|(pre & func & post & -> & Hpre & Hf)].
    + left. by apply Forall_cons.
    + right. exists (g :: pre), func, post.
      split_and!; [done | by apply Forall_cons | done].
Qed.

Lemma eager_not_lazy (h : gmap nat bool) (l pre post : list nat) func :
  l = pre ++ func :: post → is_lazy h func → ¬ Forall (is_eager h) l.
Proof.
  intros -> Hf Hl. apply Forall_app in Hl as [_ Hl].
  apply Forall_cons in Hl as [Hl _]. unfold is_lazy, is_eager in *.
  congruence.
Qed.

(** With no lazy all-listener on the register, [emit] of a name that passes
    the strict check returns, and the log grows by these calls, in this
    order: the callbacks of the event that are not lazy, with the arguments;
    the all-listeners, with the name of the event in front of the
    arguments; the lazy callbacks of the event, with the arguments.  The
    register and the flags are as before. *)
Theorem emit_calls_in_order w event args kwargs :
  flagged w →
  not_allowed (self w) event = false →
  Forall (is_eager (lazy_attr w)) (all_events_listener (self w)) →
  outcome (EventRegister.emit event args kwargs) w = Returned () ∧
  log (exec (EventRegister.emit event args kwargs) w) =
    log w ++
    calls (filter (is_eager (lazy_attr w)) (registered (self w) event))
          args kwargs ++
    calls (all_events_listener (self w)) (VStr event :: args) kwargs ++
    calls (filter (is_lazy (lazy_attr w)) (registered (self w) event))
          args kwargs ∧
  self (exec (EventRegister.emit event args kwargs) w) = self w ∧
  lazy_attr (exec (EventRegister.emit event args kwargs) w) = lazy_attr w.
Proof.
  intros Hw Hok Hall. unfold outcome, exec.
  by rewrite emit_run_eager.
Qed.

Lemma emit_calls_in_order_witness :
  flagged button ∧
  not_allowed (self button) "clicked" = false ∧
  Forall (is_eager (lazy_attr button)) (all_events_listener (self button)) ∧
  log (exec (EventRegister.emit "clicked" [VInt 5] []) button) =
    [Call 1 [VInt 5] []; Call 3 [VStr "clicked"; VInt 5] [];
     Call 2 [VInt 5] []].
Proof.
  assert (flagged button) as Hw.
  { unfold button. apply keeps_flagged_bind; [| |by apply flagged_start].
    - apply keeps_flagged_register_event.
    - intros _. apply keeps_flagged_bind.
      + apply keeps_flagged_register_event.
      + intros _. apply keeps_flagged_register_event. }
  assert (Forall (is_eager (lazy_attr button))
                 (all_events_listener (self button))) as Hall.
  { apply Forall_singleton. by vm_compute. }
  split; [exact Hw|]. split; [reflexivity|]. split; [exact Hall|].
  destruct (emit_calls_in_order button "clicked" [VInt 5] []
              Hw eq_refl Hall) as (_ & Hlog & _).
  rewrite Hlog. by vm_compute.
Defined.

(** On a register whose callbacks are flagged, [emit] of a name that passes
    the strict check returns exactly when no all-listener is lazy;
    otherwise it raises [TypeError], after the calls of the callbacks of the
    event that are not lazy and of the all-listeners that stand before the
    first lazy one. *)
Theorem emit_returns_iff_no_lazy_listener w event args kwargs :
  flagged w →
  not_allowed (self w) event = false →
  (outcome (EventRegister.emit event args kwargs) w = Returned () ↔
   Forall (is_eager (lazy_attr w)) (all_events_listener (self w))) ∧
  (outcome (EventRegister.emit event args kwargs) w = Returned () ∨
   ∃ pre func post,
     all_events_listener (self w) = pre ++ func :: post ∧
     Forall (is_eager (lazy_attr w)) pre ∧
     is_lazy (lazy_attr w) func ∧
     EventRegister.emit event args kwargs w =
       (Raised (TypeError "the first argument must be callable"),
        add_log
          (calls (filter (is_eager (lazy_attr w))
                         (registered (self w) event)) args kwargs ++
           calls pre (VStr event :: args) kwargs) w)).
Proof.
  intros Hw Hok.
  destruct (listeners_split (lazy_attr w) (all_events_listener (self w)))
    as [Hall|(pre & func & post & Hl & Hpre & Hf)]; [apply Hw|..].
  - unfold outcome. rewrite emit_run_eager by done. split; [done|by left].
  - pose proof (emit_run_lazy_listener event args kwargs pre func post w
                  Hw Hok Hl Hpre Hf) as Hrun.
    split.
    + unfold outcome. rewrite Hrun. split; [done|].
      intros Hall. by destruct (eager_not_lazy _ _ _ _ _ Hl Hf).
    + right. by exists pre, func, post.
Qed.

Lemma emit_returns_iff_no_lazy_listener_witness :
  flagged with_two_listeners ∧
  not_allowed (self with_two_listeners) "some_signal" = false ∧
  outcome (EventRegister.emit "some_signal" [] []) with_two_listeners
    ≠ Returned () ∧
  ¬ Forall (is_eager (lazy_attr with_two_listeners))
           (all_events_listener (self with_two_listeners)).
Proof.
  assert (flagged with_two_listeners) as Hw.
  { unfold with_two_listeners.
    apply keeps_flagged_bind; [| |by apply flagged_start].
    - apply keeps_flagged_register_event.
    - intros _. apply keeps_flagged_register_event. }
  destruct (emit_returns_iff_no_lazy_listener with_two_listeners
              "some_signal" [] [] Hw eq_refl) as [Hiff _].
  assert (outcome (EventRegister.emit "some_signal" [] [])
                  with_two_listeners ≠ Returned ()) as Hout
    by (by vm_compute).
  split; [exact Hw|]. split; [reflexivity|]. split; [exact Hout|].
  intros Hall. apply Hout, Hiff, Hall.
Defined.

(** Whatever the store, [emit] writes nothing but the log: the register
    (no entry is made in the mapping for a name without callbacks) and the
    flags are as before, and every call it logs has the emitted arguments,
    alone or after the name of the event, and the emitted keyword
    arguments. *)
Theorem emit_only_logs w event args kwargs :
  self (exec (EventRegister.emit event args kwargs) w) = self w ∧
  lazy_attr (exec (EventRegister.emit event args kwargs) w) = lazy_attr w ∧
  ∃ cs, log (exec (EventRegister.emit event args kwargs) w) = log w ++ cs ∧
        Forall (emitted event args kwargs) cs.
Proof.
  destruct (not_allowed (self w) event) eqn:Hna.
  - unfold exec. rewrite emit_unfold, Hna. simpl.
    split_and!; [done..|]. exists []. by rewrite app_nil_r.
  - destruct (emit_frames event args kwargs w Hna) as (cs & -> & Hcs & _).
    split_and!; [done..|]. by exists cs.
Qed.

(** A register without [__events__] refuses nothing: [register_event]
    returns for every name, and [emit] never raises [InvalidEvent]. *)
Theorem unrestricted_register_refuses_nothing w event callback lazy
    args kwargs :
  strict (self w) = false →
  outcome (EventRegister.register_event event callback lazy) w
    = Returned () ∧
  ∀ e, outcome (EventRegister.emit event args kwargs) w
         ≠ Raised (InvalidEvent e).
Proof.
  intros Hstrict.
  assert (not_allowed (self w) event = false) as Hna
    by (unfold not_allowed; by rewrite Hstrict).
  split.
  - unfold outcome. rewrite register_event_run, Hna. by case_bool_decide.
  - by destruct (emit_frames event args kwargs w Hna) as (_ & _ & _ & Hno).
Qed.

Lemma unrestricted_register_refuses_nothing_witness :
  strict (self lazy_then_eager) = false ∧
  outcome (EventRegister.register_event "never_emitted" 7 true)
          lazy_then_eager = Returned () ∧
  outcome (EventRegister.emit "never_emitted" [] []) lazy_then_eager
    ≠ Raised (InvalidEvent "never_emitted").
Proof.
  destruct (unrestricted_register_refuses_nothing lazy_then_eager
              "never_emitted" 7 true [] [] eq_refl) as [Hreg Hemit].
  split; [reflexivity|]. split; [exact Hreg|]. apply Hemit.
Defined.

(** ** What the calls of a client keep true *)

Lemma exec_then_ret {A B} (c : M A) (b : B) w :
  exec (c;; mret b) w = exec c w.
Proof. unfold exec. rewrite bind_run. by destruct (c w) as [[a|e] w']. Qed.

Lemma exec_decorate lookup name d func w :
  exec (decorate lookup name d func) w =
    match lookup name with
    | Returned g =>
        exec (EventRegister.register_event (captured_event g) func
                                           (decoration_lazy d)) w
    | Raised _ => w
    end.
Proof.
  unfold decorate. destruct (lookup name) as [g|e]; [|done].
  destruct d; apply (exec_then_ret _ (VFunc func)).
Qed.

Lemma not_allowed_more reg reg' event :
  strict reg' = strict reg →
  (∀ name, name ∈ __events__ reg → name ∈ __events__ reg') →
  not_allowed reg event = false → not_allowed reg' event = false.
Proof.
  unfold not_allowed. intros -> Hsub. destruct (strict reg); [|done].
  simpl. rewrite !negb_false_iff, !bool_decide_eq_true. apply Hsub.
Qed.

Lemma well_formed_ext w w' :
  events (self w') = events (self w) →
  all_events_listener (self w') = all_events_listener (self w) →
  strict (self w') = strict (self w) →
  (∀ name, name ∈ __events__ (self w) → name ∈ __events__ (self w')) →
  lazy_attr w' = lazy_attr w →
  well_formed w → well_formed w'.
Proof.
  intros Hev Hall Hstrict Hsub Hh ([Hf1 Hf2] & Hno & Hne & Hok).
  unfold well_formed, flagged, registered. rewrite Hev, Hall, Hh.
  split_and!; [done..|].
  intros event Hin. eapply not_allowed_more; [done..|]. by apply Hok.
Qed.

Lemma well_formed_register_event event callback lazy w :
  well_formed w →
  well_formed (exec (EventRegister.register_event event callback lazy) w).
Proof.
  intros Hw. split; [apply flagged_register_event, Hw|].
  destruct Hw as (_ & Hno & Hne & Hok).
  unfold exec. rewrite register_event_run.
  case_bool_decide as Hall; [|destruct (not_allowed (self w) event) eqn:Hna];
    cbn [snd self events with_listener with_callback set_flag];
    [done..|].
  split_and!.
  - by rewrite lookup_insert_ne.
  - intros name. rewrite lookup_insert. case_decide; [|done].
    intros [= Hnil]. by destruct (registered (self w) event).
  - intros name. rewrite lookup_insert. case_decide as Hname.
    + subst name. intros _. exact Hna.
    + apply Hok.
Qed.

Lemma well_formed_emit event args kwargs w :
  well_formed w → well_formed (exec (EventRegister.emit event args kwargs) w).
Proof.
  destruct (not_allowed (self w) event) eqn:Hna.
  - unfold exec. by rewrite emit_unfold, Hna.
  - destruct (emit_frames event args kwargs w Hna) as (cs & -> & _).
    by apply well_formed_ext.
Qed.

Lemma add_events_run names w :
  GSignals.add_events names w =
    if strict (self w) then
      (Returned (),
       {| self := {| strict := true;
                     __events__ := __events__ (self w) ++ names;
                     events := events (self w);
                     all_events_listener := all_events_listener (self w) |};
          lazy_attr := lazy_attr w; log := log w |})
    else (Raised (AttributeError "__events__"), w).
Proof.
  unfold GSignals.add_events, get_allowed, set_allowed.
  rewrite !bind_run, get_self_run. cbn beta iota.
  destruct (strict (self w)) eqn:Hstrict; [|done].
  rewrite ret_run. cbn beta iota. rewrite bind_run, get_self_run.
  cbn beta iota. unfold set_self. by rewrite Hstrict.
Qed.

Lemma well_formed_add_events names w :
  well_formed w → well_formed (exec (GSignals.add_events names) w).
Proof.
  unfold exec. rewrite add_events_run.
  destruct (strict (self w)) eqn:Hstrict; [|done].
  apply well_formed_ext; simpl; [done..| |done].
  intros name Hname. apply elem_of_app. by left.
Qed.

Lemma well_formed_perform c w :
  well_formed w → well_formed (exec (perform c) w).
Proof.
  intros Hw. destruct c as [event callback lazy|name d func|name d func
                            |event args kwargs|names]; simpl.
  - by apply well_formed_register_event.
  - rewrite exec_then_ret, exec_decorate.
    destruct (EventRegister.__getattr__ name); [|done].
    by apply well_formed_register_event.
  - rewrite exec_then_ret, exec_decorate.
    destruct (GEventRegister.__getattr__ name); [|done].
    by apply well_formed_register_event.
  - by apply well_formed_emit.
  - by apply well_formed_add_events.
Qed.

Lemma well_formed_run_calls cs w :
  well_formed w → well_formed (run_calls cs w).
Proof.
  unfold run_calls. revert w.
  induction cs as [|c cs IH]; intros w Hw; simpl; [done|].
  by apply IH, well_formed_perform.
Qed.

Lemma well_formed_start declared :
  well_formed (start (EventRegister.__init__ declared)).
Proof.
  split; [apply flagged_start; by destruct declared|].
  destruct declared; simpl; split_and!; try done;
    intros event; rewrite lookup_empty; by intros [? ?].
Qed.

(** Every store that a client reaches from a new register, whatever it
    calls and whatever is refused on the way, is well formed: each callback
    that the register holds has its [lazy] entry, the mapping of events has
    no entry for [all] and no empty list, and every name in it passes the
    strict check. *)
Theorem client_keeps_well_formed declared cs :
  well_formed (run_calls cs (start (EventRegister.__init__ declared))).
Proof. apply well_formed_run_calls, well_formed_start. Qed.

(** On every store that a client reaches from a new register, [emit] never
    fails on a missing [lazy] entry: it returns, or raises [InvalidEvent]
    with the name emitted, or raises the [TypeError] of a lazy
    all-listener. *)
Theorem client_emit_outcome declared cs event args kwargs :
  let w := run_calls cs (start (EventRegister.__init__ declared)) in
  outcome (EventRegister.emit event args kwargs) w = Returned () ∨
  outcome (EventRegister.emit event args kwargs) w
    = Raised (InvalidEvent event) ∨
  outcome (EventRegister.emit event args kwargs) w
    = Raised (TypeError "the first argument must be callable").
Proof.
  intros w.
  assert (flagged w) as Hw
    by apply (well_formed_run_calls cs _ (well_formed_start declared)).
  destruct (not_allowed (self w) event) eqn:Hna.
  - right. left. unfold outcome. by rewrite emit_unfold, Hna.
  - destruct (listeners_split (lazy_attr w) (all_events_listener (self w)))
      as [Hall|(pre & func & post & Hl & Hpre & Hf)]; [apply Hw|..].
    + left. unfold outcome. by rewrite emit_run_eager.
    + right. right. unfold outcome.
      by rewrite (emit_run_lazy_listener _ _ _ pre func post).
Qed.

(** ** Registering and then emitting *)

(** A callback registered for an event is called by the next [emit] of the
    event with the emitted arguments, for a name that passes the strict
    check, provided that no all-listener is lazy once the registration has
    written its flag (the flag is written into the [__dict__] of the
    callback, whatever registrations share it). *)
Theorem registered_callback_is_called w event callback lazy args kwargs :
  flagged w →
  not_allowed (self w) event = false →
  event ≠ "all" →
  Forall (is_eager
            (lazy_attr
               (exec (EventRegister.register_event event callback lazy) w)))
         (all_events_listener (self w)) →
  outcome (EventRegister.register_event event callback lazy;;
           EventRegister.emit event args kwargs) w = Returned () ∧
  Call callback args kwargs ∈
    log (exec (EventRegister.register_event event callback lazy;;
               EventRegister.emit event args kwargs) w).
Proof.
  intros Hw Hok Hne Hall.
  pose proof (flagged_register_event event callback lazy w Hw) as Hw'.
  unfold outcome, exec in *. rewrite bind_run.
  rewrite register_event_run in *.
  rewrite bool_decide_eq_false_2 in * by done. rewrite Hok in *.
  cbn [snd lazy_attr] in Hw', Hall. cbn beta iota.
  rewrite emit_run_eager; [|done..].
  split; [done|]. cbn [snd fst log add_log self lazy_attr].
  rewrite registered_with_callback, decide_True by done.
  rewrite !filter_app, !calls_app.
  destruct lazy.
  - rewrite (filter_cons_True (is_lazy _))
      by (unfold is_lazy; by rewrite lookup_insert_eq).
    rewrite !elem_of_app. do 3 right. right. by left.
  - rewrite (filter_cons_True (is_eager _))
      by (unfold is_eager; by rewrite lookup_insert_eq).
    rewrite !elem_of_app. right. left. right. by left.
Qed.

Lemma registered_callback_is_called_witness :
  flagged button ∧
  not_allowed (self button) "clicked" = false ∧
  Forall (is_eager
            (lazy_attr
               (exec (EventRegister.register_event "clicked" 4 true) button)))
         (all_events_listener (self button)) ∧
  Call 4 [VInt 5] [] ∈
    log (exec (EventRegister.register_event "clicked" 4 true;;
               EventRegister.emit "clicked" [VInt 5] []) button).
Proof.
  assert (flagged button) as Hw.
  { unfold button. apply keeps_flagged_bind; [| |by apply flagged_start].
    - apply keeps_flagged_register_event.
    - intros _. apply keeps_flagged_bind.
      + apply keeps_flagged_register_event.
      + intros _. apply keeps_flagged_register_event. }
  assert (Forall (is_eager
                    (lazy_attr
                       (exec (EventRegister.register_event "clicked" 4 true)
                             button)))
                 (all_events_listener (self button))) as Hall.
  { apply Forall_singleton. by vm_compute. }
  split; [exact Hw|]. split; [reflexivity|]. split; [exact Hall|].
  apply (registered_callback_is_called button "clicked" 4 true [VInt 5] []
           Hw eq_refl); [discriminate | exact Hall].
Defined.

(** The flag is shared between the registrations of a callback: when a
    callback that is an all-listener is handed to [register_event] as lazy,
    under any name and even when that registration is refused, an [emit]
    that comes next and passes the strict check raises [TypeError]. *)
Theorem lazy_registration_breaks_listener w event callback event' args
    kwargs :
  flagged w →
  callback ∈ all_events_listener (self w) →
  not_allowed (self w) event' = false →
  outcome (EventRegister.emit event' args kwargs)
          (exec (EventRegister.register_event event callback true) w)
    = Raised (TypeError "the first argument must be callable").
Proof.
  intros Hw Hin Hok.
  pose proof (flagged_register_event event callback true w Hw) as Hw'.
  set (w' := exec (EventRegister.register_event event callback true) w)
    in *.
  assert (lazy_attr w' = <[callback := true]> (lazy_attr w)) as Hh.
  { unfold w', exec. rewrite register_event_run.
    case_bool_decide; [done|]. by destruct (not_allowed (self w) event). }
  assert (callback ∈ all_events_listener (self w')) as Hin'.
  { unfold w', exec. rewrite register_event_run.
    case_bool_decide; [|by destruct (not_allowed (self w) event)].
    simpl. apply elem_of_app. by left. }
  assert (not_allowed (self w') event' = false) as Hok'.
  { revert Hok. unfold w', exec. rewrite register_event_run.
    case_bool_decide; [done|]. by destruct (not_allowed (self w) event). }
  destruct (listeners_split (lazy_attr w') (all_events_listener (self w')))
    as [Hall|(pre & func & post & Hl & Hpre & Hf)]; [apply Hw'|..].
  - apply (proj1 (Forall_forall _ _) Hall) in Hin'.
    unfold is_eager in Hin'. rewrite Hh, lookup_insert_eq in Hin'. done.
  - unfold outcome.
    by rewrite (emit_run_lazy_listener _ _ _ pre func post).
Qed.

Lemma lazy_registration_breaks_listener_witness :
  flagged button ∧
  3 ∈ all_events_listener (self button) ∧
  not_allowed (self button) "clicked" = false ∧
  outcome (EventRegister.register_event "undeclared" 3 true) button
    = Raised (InvalidEvent "undeclared") ∧
  outcome (EventRegister.emit "clicked" [] [])
          (exec (EventRegister.register_event "undeclared" 3 true) button)
    = Raised (TypeError "the first argument must be callable").
Proof.
  assert (flagged button) as Hw.
  { unfold button. apply keeps_flagged_bind; [| |by apply flagged_start].
    - apply keeps_flagged_register_event.
    - intros _. apply keeps_flagged_bind.
      + apply keeps_flagged_register_event.
      + intros _. apply keeps_flagged_register_event. }
  assert (3 ∈ all_events_listener (self button)) as Hin
    by (apply (bool_decide_eq_true_1 _); by vm_compute).
  split; [exact Hw|]. split; [exact Hin|]. split; [reflexivity|].
  split; [reflexivity|].
  exact (lazy_registration_breaks_listener button "undeclared" 3 "clicked"
           [] [] Hw Hin eq_refl).
Defined.

(** ** [GSignals]: the allowed events *)

(** [add_event] on a strict register returns and lets the name pass the
    strict check, so that a [connect] under it is accepted; every other name
    is treated as before, and the callbacks, the flags and the log are not
    touched. *)
Theorem add_event_allows_name w event :
  strict (self w) = true →
  outcome (GSignals.add_event event) w = Returned () ∧
  not_allowed (self (exec (GSignals.add_event event) w)) event = false ∧
  (∀ name, name ≠ event →
     not_allowed (self (exec (GSignals.add_event event) w)) name
       = not_allowed (self w) name) ∧
  (∀ callback lazy,
     outcome (GSignals.add_event event;;
              GSignals.connect event callback lazy) w = Returned ()) ∧
  events (self (exec (GSignals.add_event event) w)) = events (self w) ∧
  all_events_listener (self (exec (GSignals.add_event event) w))
    = all_events_listener (self w) ∧
  lazy_attr (exec (GSignals.add_event event) w) = lazy_attr w ∧
  log (exec (GSignals.add_event event) w) = log w.
Proof.
  intros Hstrict.
  assert (GSignals.add_event event w = GSignals.add_events [event] w) as Hrun
    by done.
  unfold outcome, exec. rewrite Hrun, add_events_run, Hstrict.
  cbn [fst snd self events all_events_listener lazy_attr log].
  assert (not_allowed
            {| strict := true; __events__ := __events__ (self w) ++ [event];
               events := events (self w);
               all_events_listener := all_events_listener (self w) |}
            event = false) as Hok.
  { unfold not_allowed. simpl. rewrite negb_false_iff, bool_decide_eq_true.
    apply elem_of_app. right. by apply list_elem_of_singleton. }
  split_and!; [done|done| | |done..].
  - intros name Hne. unfold not_allowed. simpl. rewrite Hstrict. simpl.
    f_equal. apply bool_decide_ext. rewrite elem_of_app.
    rewrite list_elem_of_singleton. split; [by intros [?|?] | by left].
  - intros callback lazy.
    rewrite bind_run, Hrun, add_events_run, Hstrict. cbn beta iota.
    unfold GSignals.connect, GEventRegister.register_event.
    rewrite register_event_run. cbn [self]. rewrite Hok.
    by case_bool_decide.
Qed.

Lemma add_event_allows_name_witness :
  strict (self button) = true ∧
  outcome (GSignals.connect "toggled" 4 false) button
    = Raised (InvalidEvent "toggled") ∧
  outcome (GSignals.add_event "toggled";;
           GSignals.connect "toggled" 4 false) button = Returned ().
Proof.
  destruct (add_event_allows_name button "toggled" eq_refl)
    as (_ & _ & _ & Hconnect & _).
  split; [reflexivity|]. split; [reflexivity|]. apply Hconnect.
Defined.

(** [add_events] of two lists, one after the other, is [add_events] of the
    two lists joined, and [add_event] is [add_events] of one name; this
    holds on every store, also where the register has no [__events__] and
    the calls raise [AttributeError]. *)
Theorem add_events_app names names' event w :
  (GSignals.add_events names;; GSignals.add_events names') w
    = GSignals.add_events (names ++ names') w ∧
  GSignals.add_event event w = GSignals.add_events [event] w.
Proof.
  split; [|done]. rewrite bind_run, !add_events_run.
  destruct (strict (self w)) eqn:Hstrict; [|done].
  cbn beta iota. rewrite add_events_run. simpl. by rewrite app_assoc.
Qed.

(** A new [GSignals] object allows exactly the names of [__events__] and
    the keys of [__gsignals__]: its [emit] returns without a call for these
    and raises [InvalidEvent] for every other name, and leaves the store as
    it is. *)
Theorem new_gsignals_emit declared gsignals sender signal args kwargs :
  GSignals.emit sender signal args kwargs
                (start (GSignals.__init__ declared gsignals)) =
    (if bool_decide (signal ∈ declared ++ default [] gsignals)
     then Returned () else Raised (InvalidEvent signal),
     start (GSignals.__init__ declared gsignals)).
Proof.
  unfold GSignals.emit, GEventRegister.emit. rewrite emit_unfold.
  assert (strict (GSignals.__init__ declared gsignals) = true ∧
          __events__ (GSignals.__init__ declared gsignals)
            = declared ++ default [] gsignals ∧
          events (GSignals.__init__ declared gsignals) = ∅ ∧
          all_events_listener (GSignals.__init__ declared gsignals) = [])
    as (Hstrict & Hallowed & Hev & Hall).
  { destruct gsignals; simpl; by rewrite ?app_nil_r. }
  unfold not_allowed, registered. cbn [self start].
  rewrite Hstrict, Hallowed, Hev, lookup_empty. cbn [andb default].
  case_bool_decide; cbn [negb]; [|done].
  rewrite bind_run. unfold event_loop. cbn [foldM]. rewrite ret_run.
  cbn beta iota. rewrite bind_run, get_self_run. cbn beta iota.
  cbn [self start]. by rewrite Hall.
Qed.

(** ** [GEventRegister]: what the attribute lookup registers *)

Lemma replace_underscores_free s : free_of "_" (replace_underscores s).
Proof.
  induction s as [|c s IH]; simpl; [done|]. split; [|done].
  by destruct (Ascii.eqb_spec c "_").
Qed.

Lemma replace_underscores_fixed s :
  free_of "_" s → replace_underscores s = s.
Proof.
  induction s as [|c s IH]; simpl; [done|]. intros [Hc Hs].
  rewrite IH by done. by rewrite (proj2 (Ascii.eqb_neq c "_")).
Qed.

(** [replace('_', '-')] leaves no underscore and keeps the length; it
    changes nothing in a name without underscores, so replacing twice is
    replacing once. *)
Theorem replace_underscores_hyphenates s :
  free_of "_" (replace_underscores s) ∧
  String.length (replace_underscores s) = String.length s ∧
  replace_underscores (replace_underscores s) = replace_underscores s ∧
  (free_of "_" s → replace_underscores s = s).
Proof.
  split_and!.
  - apply replace_underscores_free.
  - induction s as [|c s IH]; simpl; [done|]. by rewrite IH.
  - apply replace_underscores_fixed, replace_underscores_free.
  - apply replace_underscores_fixed.
Qed.

(** On a strict [GEventRegister], a registration written [@events.name] is
    checked under the name with hyphens: when that name is not declared the
    registration raises [InvalidEvent] carrying the name with hyphens, also
    when the name as written, with underscores, is declared.  The register
    is left as it was. *)
Theorem gdecorate_checks_hyphenated_name w name d func :
  strict (self w) = true →
  name ≠ "__events__" →
  replace_underscores name ≠ "all" →
  replace_underscores name ∉ __events__ (self w) →
  outcome (decorate GEventRegister.__getattr__ name d func) w
    = Raised (InvalidEvent (replace_underscores name)) ∧
  self (exec (decorate GEventRegister.__getattr__ name d func) w) = self w.
Proof.
  intros Hstrict Hname Hall Hout.
  assert (not_allowed (self w) (replace_underscores name) = true) as Hna
    by by apply not_allowed_spec.
  unfold outcome. rewrite exec_decorate.
  unfold decorate, exec. rewrite ggetattr_run by done.
  cbn [captured_event].
  assert (∀ lazy,
    EventRegister.register_event (replace_underscores name) func lazy w
      = (Raised (InvalidEvent (replace_underscores name)),
         set_flag func lazy w)) as Hrun.
  { intros lazy. rewrite register_event_run, Hna.
    by rewrite bool_decide_eq_false_2. }
  rewrite Hrun. split; [|done].
  destruct d; simpl; by rewrite bind_run, Hrun.
Qed.

Lemma gdecorate_checks_hyphenated_name_witness :
  strict (self (start (GSignals.__init__ ["on_foo_bar"] None))) = true ∧
  "on_foo_bar" ∈ __events__ (self (start (GSignals.__init__ ["on_foo_bar"]
                                                            None))) ∧
  outcome (decorate GEventRegister.__getattr__ "on_foo_bar" Bare 1)
          (start (GSignals.__init__ ["on_foo_bar"] None))
    = Raised (InvalidEvent "on-foo-bar").
Proof.
  split; [reflexivity|]. split; [by apply list_elem_of_singleton|].
  apply (gdecorate_checks_hyphenated_name
           (start (GSignals.__init__ ["on_foo_bar"] None))
           "on_foo_bar" Bare 1 eq_refl); [discriminate | discriminate |].
  apply (bool_decide_eq_false_1 _). by vm_compute.
Defined.

(** ** A run of registrations *)

Lemma callbacks_for_cons event e f lz rs :
  callbacks_for event ((e, f, lz) :: rs) =
    if decide (e = event) then f :: callbacks_for event rs
    else callbacks_for event rs.
Proof.
  unfold callbacks_for. case_decide as He.
  - by rewrite filter_cons_True by done.
  - by rewrite filter_cons_False by done.
Qed.

(** On a register without [__events__], a run of registrations returns;
    afterwards the list of every event is the list from before followed by
    the callbacks registered for it, in the order of the registrations, and
    the all-listeners are those from before followed by the callbacks
    registered for [all].  Nothing is called. *)
Theorem register_all_in_order rs w :
  strict (self w) = false →
  outcome (register_all rs) w = Returned () ∧
  (∀ event, event ≠ "all" →
     registered (self (exec (register_all rs) w)) event
       = registered (self w) event ++ callbacks_for event rs) ∧
  all_events_listener (self (exec (register_all rs) w))
    = all_events_listener (self w) ++ callbacks_for "all" rs ∧
  log (exec (register_all rs) w) = log w.
Proof.
  unfold register_all, outcome, exec. revert w.
  induction rs as [|[[e f] lz] rs IH]; intros w Hstrict.
  - simpl. split_and!; [done| |by rewrite app_nil_r|done].
    intros event _. by rewrite app_nil_r.
  - assert (not_allowed (self w) e = false) as Hna
      by (unfold not_allowed; by rewrite Hstrict).
    cbn [for_ fst snd]. rewrite bind_run, register_event_run, Hna.
    rewrite !callbacks_for_cons.
    case_bool_decide as Hall; cbn beta iota.
    + subst e.
      match goal with |- context [for_ rs ?b ?w1] =>
        destruct (IH w1) as (Hret & Hev & Hls & Hlog); [done|] end.
      rewrite Hret, Hls, Hlog. cbn [self all_events_listener
        with_listener lazy_attr log].
      split_and!; [done| |by rewrite decide_True, <- app_assoc|done].
      intros event Hne. rewrite (Hev event Hne), callbacks_for_cons.
      by rewrite decide_False by done.
    + match goal with |- context [for_ rs ?b ?w1] =>
        destruct (IH w1) as (Hret & Hev & Hls & Hlog); [done|] end.
      rewrite Hret, Hls, Hlog. cbn [self lazy_attr log].
      split_and!; [done| |by rewrite decide_False|done].
      intros event Hne. rewrite (Hev event Hne), callbacks_for_cons.
      cbn [self]. rewrite registered_with_callback.
      destruct (decide (e = event)) as [->|He]; [|done].
      by rewrite <- app_assoc.
Qed.

Lemma register_all_in_order_witness :
  strict (self lazy_then_eager) = false ∧
  registered
    (self (exec (register_all [("a", 3, true); ("all", 4, false);
                               ("b", 1, false); ("a", 3, false)])
                lazy_then_eager)) "a" = [1; 2; 3; 3] ∧
  all_events_listener
    (self (exec (register_all [("a", 3, true); ("all", 4, false);
                               ("b", 1, false); ("a", 3, false)])
                lazy_then_eager)) = [4].
Proof.
  destruct (register_all_in_order
              [("a", 3, true); ("all", 4, false); ("b", 1, false);
               ("a", 3, false)] lazy_then_eager eq_refl)
    as (_ & Hev & Hls & _).
  split; [reflexivity|]. split.
  - rewrite (Hev "a") by discriminate. reflexivity.
  - rewrite Hls. reflexivity.
Defined.
